(** * Lightnode: cache store, dispatcher, burn watcher and tx checker

    A shallow embedding of the request/transaction pipeline of the
    lightnode: the in-memory TTL cache ([store] package), the dispatcher
    ([dispatcher/dispatcher.go]), the burn-log watcher ([watcher] package)
    and the resolver's [txChecker].  Go state is threaded explicitly, calls
    into collaborators outside the repository (chain clients, the darknode
    transformation library, Redis faults) are oracles, and panics are a
    separate outcome. *)

From Stdlib Require Import ZArith Lia List Ascii String.
From Stdlib Require Import DecimalString DecimalN DecimalPos.
From stdpp Require Import base option list gmap strings fin_maps.

Local Open Scope string_scope.
Local Open Scope Z_scope.

(** ** Go values shared by every package *)

(** Go [error] values: the sentinels the code compares against, and an
    opaque error carrying its message. *)
Inductive error : Type :=
| ErrKeyNotFound            (* store.ErrKeyNotFound *)
| ErrDataExpired            (* store.ErrDataExpired *)
| ErrNoMoreItems            (* store.ErrNoMoreItems *)
| ErrNoRows                 (* sql.ErrNoRows *)
| RedisNil                  (* redis.Nil *)
| ErrOther (msg : string).

(** A Go [(T, error)] return where exactly one side is meaningful. *)
Inductive result (A : Type) : Type :=
| Ok (a : A)
| Err (e : error).
Arguments Ok {A} a.
Arguments Err {A} e.

(** A call either returns or panics. *)
Inductive outcome (A : Type) : Type :=
| Returns (a : A)
| Panics (msg : string).
Arguments Returns {A} a.
Arguments Panics {A} msg.

Definition bytes : Type := list Byte.byte.

(** Fixed-width integers: [uint64] and the signed 64-bit [int]/[int64]. *)
Definition two64 : Z := 2 ^ 64.
Definition wrap_u64 (z : Z) : Z := z mod two64.
Definition add_u64 (a b : Z) : Z := wrap_u64 (a + b).
Definition sub_u64 (a b : Z) : Z := wrap_u64 (a - b).
Definition wrap_i64 (z : Z) : Z := (z + 2 ^ 63) mod two64 - 2 ^ 63.
Definition add_i64 (a b : Z) : Z := wrap_i64 (a + b).
Definition sub_i64 (a b : Z) : Z := wrap_i64 (a - b).

(** [len(s)] as a Go [int]. *)
Definition len {A : Type} (l : list A) : Z := Z.of_nat (length l).

(** [s[i]] on a slice: a run-time panic outside [0, len(s)). *)
Definition slice_index {A : Type} (s : list A) (i : Z) : outcome A :=
  if (0 <=? i) && (i <? len s) then
    match s !! Z.to_nat i with
    | Some x => Returns x
    | None => Panics "runtime error: index out of range"
    end
  else Panics "runtime error: index out of range".

(** ** Package [store]: the in-memory cache *)

Module Store.

(** [json.Marshal] / [json.Unmarshal] at the type of the stored values. *)
Class Json (V : Type) : Type := {
  Marshal : V -> result bytes;
  Unmarshal : bytes -> result V
}.

Record cache : Type := mkCache {
  data : gmap string bytes;
  lastSeen : gmap string Z;
  timeToLive : Z
}.

Definition NewCache (timeToLive : Z) : cache :=
  {| data := ∅; lastSeen := ∅; timeToLive := timeToLive |}.

(** The expiry check at the head of [Read]: [Some e] is the early return.
    [now] is [time.Now().Unix()]. *)
Definition expiry_check (c : cache) (now : Z) (key : string) : option error :=
  if 0 <? timeToLive c then
    match lastSeen c !! key with
    | None => Some ErrKeyNotFound
    | Some seen =>
        if timeToLive c <? sub_i64 now seen then Some ErrDataExpired else None
    end
  else None.

(** [Read] takes the read lock and mutates nothing: the cache after the
    call is the cache before it. *)
Definition Read {V : Type} `{Json V} (c : cache) (now : Z) (key : string) : result V :=
  match expiry_check c now key with
  | Some e => Err e
  | None =>
      match data c !! key with
      | None => Err ErrKeyNotFound
      | Some val => Unmarshal val
      end
  end.

Definition Write {V : Type} `{Json V} (c : cache) (now : Z) (key : string) (value : V)
  : cache * option error :=
  match Marshal value with
  | Err e => (c, Some e)
  | Ok val =>
      let data' := <[key := val]> (data c) in
      let lastSeen' :=
        if 0 <? timeToLive c then <[key := now]> (lastSeen c) else lastSeen c in
      ({| data := data'; lastSeen := lastSeen'; timeToLive := timeToLive c |}, None)
  end.

Definition Delete (c : cache) (key : string) : cache * option error :=
  ({| data := delete key (data c);
      lastSeen := delete key (lastSeen c);
      timeToLive := timeToLive c |}, None).

Definition Entries (c : cache) : Z := Z.of_nat (size (data c)).

(** The calls of the [KVStore] interface that change the cache, and a
    history of them applied in order. *)
Inductive Update (V : Type) : Type :=
| DoWrite (now : Z) (key : string) (value : V)
| DoDelete (key : string).
Arguments DoWrite {V} now key value.
Arguments DoDelete {V} key.

Definition updated_key {V : Type} (u : Update V) : string :=
  match u with
  | DoWrite _ key _ => key
  | DoDelete key => key
  end.

Definition apply_update {V : Type} `{Json V} (c : cache) (u : Update V) : cache :=
  match u with
  | DoWrite now key value => fst (Write c now key value)
  | DoDelete key => fst (Delete c key)
  end.

Definition apply_updates {V : Type} `{Json V} (c : cache) (us : list (Update V)) : cache :=
  fold_left apply_update us c.

Record cacheIterator : Type := mkIter {
  index : Z;
  keys : list string;
  values : list bytes
}.

(** Go ranges over the map in an unspecified order; [map_to_list] fixes
    one.  Both slices have [len(data)] cells, filled pairwise. *)
Definition newCacheIterator (data : gmap string bytes) : cacheIterator :=
  {| index := -1;
     keys := fst <$> map_to_list data;
     values := snd <$> map_to_list data |}.

Definition Iterator (c : cache) : cacheIterator := newCacheIterator (data c).

Definition Next (iter : cacheIterator) : cacheIterator * bool :=
  let index' := add_i64 (index iter) 1 in
  ({| index := index'; keys := keys iter; values := values iter |},
   index' <? len (keys iter)).

(** [KV] returns the empty key with [err], or [(key, nil)] with the value
    decoded into the caller's variable; [Ok (key, v)] stands for the
    latter. *)
Definition KV {V : Type} `{Json V} (iter : cacheIterator) : outcome (result (string * V)) :=
  if len (keys iter) <=? index iter then Returns (Err ErrNoMoreItems)
  else
    match slice_index (values iter) (index iter) with
    | Panics msg => Panics msg
    | Returns val =>
        match Unmarshal val with
        | Err e => Returns (Err e)
        | Ok v =>
            match slice_index (keys iter) (index iter) with
            | Panics msg => Panics msg
            | Returns key => Returns (Ok (key, v))
            end
        end
    end.

(** [n] calls of [Next] in a row, keeping the iterator. *)
Definition Nexts (n : nat) (iter : cacheIterator) : cacheIterator :=
  Nat.iter n (fun it => fst (Next it)) iter.

End Store.

(** ** Package [dispatcher] *)

Module Dispatcher.

(** The JSON-RPC envelopes of the darknode library. *)
Record JSONError : Type := mkJSONError {
  Code : Z;
  Message : string
}.

Record Request : Type := mkRpcRequest {
  ReqID : Z;
  Method : string;
  ReqParams : bytes
}.

Record Response : Type := mkRpcResponse {
  Version : string;
  ID : Z;
  Result : option bytes;
  Error : option JSONError
}.

(** [jsonrpc.Response{}] *)
Definition zeroResponse : Response :=
  {| Version := EmptyString; ID := 0; Result := None; Error := None |}.

(** A response that carries a result and no error object. *)
Definition successful (r : Response) : bool :=
  match Result r, Error r with
  | Some _, None => true
  | _, _ => false
  end.

(** What the dispatcher reaches through imports: the multi-address parser
    and the HTTP client. *)
Class Peers : Type := {
  MultiAddress : Type;
  NewMultiAddressFromString : string -> result MultiAddress;
  SendToDarknode : MultiAddress -> Request -> result Response
}.

(** [db.Iterable]: the keys in iteration order, each as [iter.Key()]
    returns it. *)
Definition Iterable : Type := list (result string).

Record Dispatcher : Type := mkDispatcher {
  timeout : Z;
  multiStore : Iterable
}.

(** [phi.Message] is an empty interface; the dispatcher expects one type. *)
Inductive phi_Message : Type :=
| RequestWithResponder (request : Request)
| OtherMessage (typeName : string).

Record ResponseIterator : Type := mkResponseIterator {
  update : Response -> bool -> bool * Response
}.

Definition FirstResponseIterator : ResponseIterator :=
  {| update := fun res final => (true, res) |}.

Definition NewFirstResponseIterator : ResponseIterator := FirstResponseIterator.

Definition responseIterator (method : string) : ResponseIterator :=
  NewFirstResponseIterator.

Section WithPeers.
Context `{Peers}.

Definition multiAddrs (multiStore : Iterable) (method : string)
  : outcome (list MultiAddress) :=
  match multiStore with
  | [] => Panics "[dispatcher] empty address store"
  | Err _ :: _ => Panics "[dispatcher] empty address store"
  | Ok str :: _ =>
      match NewMultiAddressFromString str with
      | Err _ => Panics "[dispatcher] incorrectly stored multi address"
      | Ok address => Returns [address]
      end
  end.

(** What one worker of [co.ParForAll] puts on the channel. *)
Definition peer_response (request : Request) (a : MultiAddress) : Response :=
  match SendToDarknode a request with
  | Err _ => zeroResponse
  | Ok response => response
  end.

(** The workers run in parallel, so the channel yields their responses
    in some order. *)
Definition arrival_of (addrs : list MultiAddress) (request : Request)
           (responses : list Response) : Prop :=
  Permutation responses (peer_response request <$> addrs).

(** The receive loop of [Handle]: [i] counts from 1, [n] is
    [len(addrs)]; an exhausted channel answers [jsonrpc.Response{}]. *)
Fixpoint receive (resIter : ResponseIterator) (n i : Z) (responses : list Response)
  : Response :=
  match responses with
  | [] => zeroResponse
  | res :: rest =>
      let '(done, response) := update resIter res (i =? n) in
      if done then response else receive resIter n (add_i64 i 1) rest
  end.

(** [Handle] with the channel contents in arrival order; [Returns r] is
    [msg.Responder <- r]. *)
Definition Handle (dispatcher : Dispatcher) (message : phi_Message)
           (responses : list Response) : outcome Response :=
  match message with
  | OtherMessage _ => Panics "[dispatcher] unexpected message type"
  | RequestWithResponder request =>
      match multiAddrs (multiStore dispatcher) (Method request) with
      | Panics msg => Panics msg
      | Returns addrs =>
          Returns (receive (responseIterator (Method request)) (len addrs) 1 responses)
      end
  end.

End WithPeers.

End Dispatcher.

(** ** Package [watcher] *)

Module Watcher.

(** *** Redis as the watcher uses it *)

(** go-redis writes a [uint64] as its decimal digits and [Uint64()]
    reads it back with [strconv.ParseUint(s, 10, 64)]. *)
Definition formatUint (n : Z) : string :=
  NilZero.string_of_uint (N.to_uint (Z.to_N n)).

Definition parseUint (s : string) : result Z :=
  match NilZero.uint_of_string s with
  | None => Err (ErrOther "strconv.ParseUint: invalid syntax")
  | Some d =>
      let n := Z.of_N (N.of_uint d) in
      if n <? two64 then Ok n
      else Err (ErrOther "strconv.ParseUint: value out of range")
  end.

(** The calls the watcher makes on the cache; a round's oracle says which
    of them fail (connection or server errors, with their message). *)
Inductive RedisCall : Type :=
| GetCursor
| InitCursor
| SetMapping (key : string)
| SetCursor.

(** [cache.Get(key)]: [redis.Nil] for a missing key. *)
Definition redis_Get (fault : option string) (cache : gmap string string) (key : string)
  : result string :=
  match fault with
  | Some msg => Err (ErrOther msg)
  | None =>
      match cache !! key with
      | None => Err RedisNil
      | Some s => Ok s
      end
  end.

(** [cache.Set(key, value, 0).Err()]: a failed command stores nothing. *)
Definition redis_Set (fault : option string) (cache : gmap string string)
           (key value : string) : gmap string string * option error :=
  match fault with
  | Some msg => (cache, Some (ErrOther msg))
  | None => (<[key := value]> cache, None)
  end.

(** *** Burn logs *)

(** The fields of [MintGatewayLogicV1LogBurn] the watcher reads; [Amount]
    and [N] are big integers, [To] is a byte string. *)
Record LogBurn : Type := mkLogBurn {
  To : string;
  Amount : Z;
  N : Z;
  TxHash : string
}.

Definition zeroLogBurn : LogBurn :=
  {| To := EmptyString; Amount := 0; N := 0; TxHash := EmptyString |}.

Record BurnLogResult : Type := mkBurnLogResult {
  Result : LogBurn;
  Error : option error
}.

(** A result that carries an event. *)
Definition no_error (res : BurnLogResult) : bool :=
  match Error res with
  | None => true
  | Some _ => false
  end.

(** The bound log iterator: the events [Next] yields one by one, what
    [iter.Error()] says when [FetchBurnLogs] returns and after the loop,
    and what [iter.Close()] says. *)
Record LogBurnIterator : Type := mkLogBurnIterator {
  events : list LogBurn;
  errorAtReturn : option error;
  errorAfterLoop : option error;
  closeError : option error
}.

(** *** Transactions built from a burn *)

Inductive Version : Type := Version0 | Version1.

Record CrossChainInput : Type := mkCrossChainInput {
  Txid : string;
  Txindex : Z;
  InAmount : Z;
  Payload : string;
  InPhash : string;
  InTo : string;
  Nonce : Z;
  InNhash : string;
  Gpubkey : string;
  InGhash : string
}.

Record Tx : Type := mkPackTx {
  Hash : string;
  TxVersion : Version;
  Selector : string;
  Input : CrossChainInput
}.

Record ParamsSubmitTx : Type := mkBurnParams {
  ParamsTx : Tx
}.

Record Response : Type := mkSubmitResponse {
  ResponseError : option string
}.

(** The multichain, pack, txengine and compat libraries the watcher calls:
    address codecs, hashes and encoders. *)
Class Libs : Type := {
  (** the selector's asset is BTC, BCH or ZEC *)
  isUTXOAsset : string -> bool;
  (** [AddressEncodeDecoder(origin chain, network).DecodeAddress] *)
  DecodeAddress : string -> string -> option error;
  base58_Encode : string -> string;
  (** [bindings.DecodeAddress(selector.Destination(), to)] *)
  bindings_DecodeAddress : string -> string -> result string;
  Phash : string -> string;
  Nhash : Z -> string -> Z -> string;
  Ghash : string -> string -> string -> Z -> string;
  pack_Encode : CrossChainInput -> option error;
  NewTxHash : Version -> string -> CrossChainInput -> result string;
  v0_BurnTxHash : string -> Z -> string;
  (** [id.Hash.String()] *)
  hash_String : string -> string
}.

(** What one round observes of the outside world. *)
Record Round : Type := mkRound {
  (** the head's number as [HeaderByNumber(ctx, nil)] reports it *)
  HeaderByNumber : result Z;
  redisFault : RedisCall -> option string;
  (** [bindings.FilterLogBurn] on [Start = from], [End = to] *)
  FilterLogBurn : Z -> Z -> result LogBurnIterator;
  (** [resolver.SubmitTx(ctx, 0, &params, nil)] *)
  SubmitTx : ParamsSubmitTx -> Response
}.

Record Watcher : Type := mkWatcher {
  gpubkey : string;
  selector : string;
  maxBlockAdvance : Z;
  confidenceInterval : Z
}.

Definition NewWatcher (selector : string) (distPubKey : string) : Watcher :=
  {| gpubkey := distPubKey;
     selector := selector;
     maxBlockAdvance := 1000;
     confidenceInterval := 6 |}.

(** *** [FetchBurnLogs] *)

(** The loop of the fetch goroutine.  After sending an event it runs
    [select { case <-ctx.Done(): return }]: a select with one case and no
    default blocks until the context is done (the round's context has the
    poll interval as timeout), and then leaves the loop. *)
Definition send_events (events : list LogBurn) : list BurnLogResult :=
  match events with
  | [] => []
  | event :: _ => [ {| Result := event; Error := None |} ]
  end.

Definition send_error (err : option error) : list BurnLogResult :=
  match err with
  | None => []
  | Some e => [ {| Result := zeroLogBurn; Error := Some e |} ]
  end.

(** Everything the goroutine puts on [resultChan] before closing it. *)
Definition fetch_goroutine (iter : LogBurnIterator) : list BurnLogResult :=
  send_events (events iter)
    ++ send_error (errorAfterLoop iter)
    ++ send_error (closeError iter).

(** Returns the channel (as what will come out of it) and [iter.Error()]. *)
Definition FetchBurnLogs (round : Round) (from to : Z)
  : list BurnLogResult * option error :=
  match FilterLogBurn round from to with
  | Err e => ([], Some e)
  | Ok iter => (fetch_goroutine iter, errorAtReturn iter)
  end.

(** *** The watcher round *)

(** [key]: [fmt.Sprintf("%v_lastCheckedBlock", selector)] *)
Definition key (watcher : Watcher) : string :=
  selector watcher ++ "_lastCheckedBlock".

(** [currentBlock.Number.Uint64()] keeps the low 64 bits. *)
Definition currentBlockNumber (round : Round) : result Z :=
  match HeaderByNumber round with
  | Err e => Err e
  | Ok number => Ok (wrap_u64 number)
  end.

(** [cache.Get(key).Uint64()] *)
Definition Get_Uint64 (fault : option string) (cache : gmap string string) (key : string)
  : result Z :=
  match redis_Get fault cache key with
  | Err e => Err e
  | Ok s => parseUint s
  end.

Definition lastCheckedBlockNumber (watcher : Watcher) (round : Round)
           (cache : gmap string string) (currentBlockN : Z)
  : gmap string string * result Z :=
  match Get_Uint64 (redisFault round GetCursor) cache (key watcher) with
  | Err RedisNil =>
      match redis_Set (redisFault round InitCursor) cache (key watcher)
                      (formatUint (sub_u64 currentBlockN 1)) with
      | (cache', Some e) => (cache', Err e)
      | (cache', None) => (cache', Ok (sub_u64 currentBlockN 1))
      end
  | Err e => (cache, Err e)
  | Ok last => (cache, Ok last)
  end.

Section WithLibs.
Context `{Libs}.

(** The recipient and version of a burn: for BTC, BCH and ZEC a [to]
    that does not decode is retried base58-encoded and marks the
    transaction as version 0. *)
Definition burn_recipient (watcher : Watcher) (toBytes : string)
  : result (Version * string) :=
  let to := toBytes in
  if isUTXOAsset (selector watcher) then
    match DecodeAddress (selector watcher) to with
    | None => Ok (Version1, to)
    | Some _ =>
        let to := base58_Encode toBytes in
        match DecodeAddress (selector watcher) to with
        | Some e => Err e
        | None => Ok (Version0, to)
        end
    end
  else Ok (Version1, to).

(** [burnToParams], cache writes included: both mappings are stored
    with their errors ignored, after every fallible step. *)
Definition burnToParams (watcher : Watcher) (round : Round)
           (cache : gmap string string)
           (txid : string) (amount : Z) (toBytes : string) (nonce : Z)
           (gpubkey : string)
  : gmap string string * result ParamsSubmitTx :=
  match burn_recipient watcher toBytes with
  | Err e => (cache, Err e)
  | Ok (version, to) =>
      match bindings_DecodeAddress (selector watcher) to with
      | Err e => (cache, Err e)
      | Ok toDecoded =>
          let txindex := 0 in
          let payload := EmptyString in
          let phash := Phash payload in
          let nhash := Nhash nonce txid txindex in
          let ghash := Ghash (selector watcher) phash toDecoded nonce in
          let input :=
            {| Txid := txid; Txindex := txindex; InAmount := amount;
               Payload := payload; InPhash := phash; InTo := to;
               Nonce := nonce; InNhash := nhash; Gpubkey := gpubkey;
               InGhash := ghash |} in
          match pack_Encode input with
          | Some e => (cache, Err e)
          | None =>
              match NewTxHash version (selector watcher) input with
              | Err e => (cache, Err e)
              | Ok hash =>
                  let transaction :=
                    {| Hash := hash; TxVersion := version;
                       Selector := selector watcher; Input := input |} in
                  let v0Hash := v0_BurnTxHash (selector watcher) nonce in
                  let k1 := hash_String v0Hash in
                  let cache :=
                    fst (redis_Set (redisFault round (SetMapping k1)) cache
                                   k1 (hash_String (Hash transaction))) in
                  let k2 := selector watcher ++ "_" ++ formatUint nonce in
                  let cache :=
                    fst (redis_Set (redisFault round (SetMapping k2)) cache
                                   k2 (hash_String v0Hash)) in
                  (cache, Ok {| ParamsTx := transaction |})
              end
          end
      end
  end.

(** [for res := range c]: the cache, the params handed to
    [resolver.SubmitTx] in order, and the error result that made the
    round return, if any.  A burn whose params cannot be built, or that
    the resolver rejects, is logged and the loop continues. *)
Fixpoint range_logs (watcher : Watcher) (round : Round)
         (cache : gmap string string) (c : list BurnLogResult)
  : gmap string string * list ParamsSubmitTx * option error :=
  match c with
  | [] => (cache, [], None)
  | res :: rest =>
      match Error res with
      | Some e => (cache, [], Some e)
      | None =>
          let event := Result res in
          let to := To event in
          let amount := wrap_u64 (Amount event) in
          let nonce := wrap_u64 (N event) in
          match burnToParams watcher round cache (TxHash event) amount to nonce
                             (gpubkey watcher) with
          | (cache', Err _) => range_logs watcher round cache' rest
          | (cache', Ok params) =>
              let response := SubmitTx round params in
              let '(cache'', submitted, err) :=
                range_logs watcher round cache' rest in
              (cache'', params :: submitted, err)
          end
      end
  end.

(** Which [return] ended the round. *)
Inductive Exit : Type :=
| HeadError (e : error)
| CursorError (e : error)
| OldBlocks
| FetchError (e : error)
| ChannelError (e : error)
| SetError (e : error)
| Completed.

Record Outcome : Type := mkOutcome {
  cache_after : gmap string string;
  (** the arguments of [FetchBurnLogs], when it was called *)
  fetched : option (Z * Z);
  submitted : list ParamsSubmitTx;
  exit : Exit
}.

(** The block the round fetches up to and persists (lines 177-184). *)
Definition target (watcher : Watcher) (cur last : Z) : Z :=
  let step := add_u64 last (maxBlockAdvance watcher) in
  let cur := if step <? cur then step else cur in
  sub_u64 cur (confidenceInterval watcher).

Definition watchLogShiftOuts (watcher : Watcher) (round : Round)
           (cache : gmap string string) : Outcome :=
  match currentBlockNumber round with
  | Err e => mkOutcome cache None [] (HeadError e)
  | Ok cur =>
      match lastCheckedBlockNumber watcher round cache cur with
      | (cache, Err e) => mkOutcome cache None [] (CursorError e)
      | (cache, Ok last) =>
          if cur <=? last then mkOutcome cache None [] OldBlocks
          else
            let cur := target watcher cur last in
            match FetchBurnLogs round last cur with
            | (_, Some e) => mkOutcome cache (Some (last, cur)) [] (FetchError e)
            | (c, None) =>
                match range_logs watcher round cache c with
                | (cache, submitted, Some e) =>
                    mkOutcome cache (Some (last, cur)) submitted (ChannelError e)
                | (cache, submitted, None) =>
                    match redis_Set (redisFault round SetCursor) cache
                                    (key watcher) (formatUint cur) with
                    | (cache, Some e) =>
                        mkOutcome cache (Some (last, cur)) submitted (SetError e)
                    | (cache, None) =>
                        mkOutcome cache (Some (last, cur)) submitted Completed
                    end
                end
            end
      end
  end.

End WithLibs.

(** *** Address codecs *)

(** [multichain.Chain] and [multichain.Network] are strings; the
    constructors are the constants the watcher switches on. *)
Inductive Chain : Type :=
| Bitcoin | BitcoinCash | DigiByte | Dogecoin | Zcash
| OtherChain (name : string).

Inductive Network : Type :=
| NetworkMainnet | NetworkDevnet | NetworkTestnet | NetworkLocalnet
| OtherNetwork (name : string).

(** [chaincfg.Params] and [zcash.Params]: the three parameter sets. *)
Inductive NetworkParams : Type :=
| MainNetParams | TestNet3Params | RegressionNetParams.

(** The three [NewAddressEncodeDecoder] constructors. *)
Inductive AddressCodec : Type :=
| bitcoin_codec (params : NetworkParams)
| bitcoincash_codec (params : NetworkParams)
| zcash_codec (params : NetworkParams).

Definition ZcashNetParams (network : Network) : NetworkParams :=
  match network with
  | NetworkMainnet => MainNetParams
  | NetworkDevnet | NetworkTestnet => TestNet3Params
  | _ => RegressionNetParams
  end.

Definition NetParams (network : Network) (chain : Chain) : outcome NetworkParams :=
  match chain with
  | Bitcoin | BitcoinCash =>
      match network with
      | NetworkMainnet => Returns MainNetParams
      | NetworkDevnet | NetworkTestnet => Returns TestNet3Params
      | _ => Returns RegressionNetParams
      end
  | _ => Panics "cannot get network params: unknown chain"
  end.

Definition AddressEncodeDecoder (chain : Chain) (network : Network)
  : outcome AddressCodec :=
  match chain with
  | Bitcoin | DigiByte | Dogecoin =>
      match NetParams network chain with
      | Panics msg => Panics msg
      | Returns params => Returns (bitcoin_codec params)
      end
  | BitcoinCash =>
      match NetParams network chain with
      | Panics msg => Panics msg
      | Returns params => Returns (bitcoincash_codec params)
      end
  | Zcash => Returns (zcash_codec (ZcashNetParams network))
  | _ => Panics "unknown chain"
  end.

End Watcher.

(** ** Package [resolver]: the tx checker *)

Module Resolver.

(** [abi.Tx] of the darknode library. *)
Record Tx : Type := mkAbiTx {
  Hash : string;
  To : string;
  In : list (string * string);
  Autogen : list (string * string);
  Out : list (string * string)
}.

Definition zeroTx : Tx :=
  {| Hash := EmptyString; To := EmptyString; In := []; Autogen := []; Out := [] |}.

Record ParamsSubmitTx : Type := mkParamsSubmitTx {
  ParamsTx : Tx
}.

(** [req.Params] is an interface value. *)
Inductive Params : Type :=
| SubmitTxParams (params : ParamsSubmitTx)
| OtherParams.

Record RequestWithResponder : Type := mkRequestWithResponder {
  ID : Z;
  ReqParams : Params;
  (** [req.Query.Get("gaas")] *)
  Query_gaas : string
}.

Record ResponseSubmitTx : Type := mkResponseSubmitTx {
  ResponseTx : Tx
}.

Definition ErrorCodeInvalidParams : Z := -32602.
Definition ErrorCodeInternal : Z := -32603.

(** What is written to the request's responder. *)
Inductive Reply : Type :=
| RespondWithErr (code : Z) (err : error)
| NewResponse (id : Z) (response : ResponseSubmitTx).

(** The darknode [transform] functions, with the blockchain client and
    the distributed public key they are called with. *)
Class Transform : Type := {
  ValidateTxParams : Tx -> option error;
  PHash : Tx -> result Tx;
  GHash : Tx -> Tx;
  NHash : Tx -> Tx;
  TxHash : Tx -> Tx;
  IsShiftIn : string -> bool;
  ValidateUtxo : Tx -> result Tx;
  Sighash : Tx -> Tx;
  AddShiftOutDetails : Tx -> result Tx
}.

(** *** The transaction store *)

Inductive Status : Type :=
| Pending | Confirming | Confirmed | Submitted | Done | Rejected | Failed.

(** Modelled from the spec: the [db] package ([db.DB], [db.Tx],
    [db.InsertTx]) is not among the sources.  The store is one table whose
    rows carry the transaction, its status, creation time and gateway
    flag; [select by hash] answers [sql.ErrNoRows] when no row has the
    hash, and [insert] adds a row in status pending.  The table keeps its
    rows in insertion order and [InsertTx] does not itself refuse a second
    row with the same hash: uniqueness is left to the caller. *)
Record Row : Type := mkRow {
  row_tx : Tx;
  row_status : Status;
  row_created_at : Z;
  row_gateway : bool
}.

Definition DB : Type := list Row.

(** What the database does to one [checkDuplicate]: a query or an insert
    that fails (with the driver's message), and the clock. *)
Record DBRound : Type := mkDBRound {
  txFault : option string;
  insertFault : option string;
  now : Z
}.

Definition find_row (db : DB) (hash : string) : option Row :=
  find (fun row => String.eqb (Hash (row_tx row)) hash) db.

(** Modelled from the spec: [db.Tx(hash, tagged)], the select by hash. *)
Definition db_Tx (round : DBRound) (db : DB) (hash : string) (tagged : bool)
  : Tx * option error :=
  match txFault round with
  | Some msg => (zeroTx, Some (ErrOther msg))
  | None =>
      match find_row db hash with
      | None => (zeroTx, Some ErrNoRows)
      | Some row => (row_tx row, None)
      end
  end.

(** Modelled from the spec: the row [db.InsertTx] writes, in status
    pending. *)
Definition new_row (round : DBRound) (tx : Tx) (gaas : bool) : Row :=
  {| row_tx := tx; row_status := Pending;
     row_created_at := now round; row_gateway := gaas |}.

(** Modelled from the spec: [db.InsertTx(tx, gaas)], the insert. *)
Definition db_InsertTx (round : DBRound) (db : DB) (tx : Tx) (gaas : bool)
  : DB * option error :=
  match insertFault round with
  | Some msg => (db, Some (ErrOther msg))
  | None => ((db ++ [new_row round tx gaas])%list, None)
  end.

Definition hashes (db : DB) : list string := (fun row => Hash (row_tx row)) <$> db.

(** *** The checker *)

Section WithTransform.
Context `{Transform}.

Definition verify (params : ParamsSubmitTx) : result Tx :=
  match ValidateTxParams (ParamsTx params) with
  | Some e => Err e
  | None =>
      match PHash (ParamsTx params) with
      | Err e => Err e
      | Ok tx =>
          let tx := GHash tx in
          let tx := NHash tx in
          let tx := TxHash tx in
          if IsShiftIn (To tx) then
            match ValidateUtxo tx with
            | Err e => Err e
            | Ok tx => Ok (Sighash tx)
            end
          else AddShiftOutDetails tx
      end
  end.

(** [checkDuplicate] holds [tc.mu] from entry to return, so it is one
    atomic step on the store. *)
Definition checkDuplicate (db : DB) (round : DBRound) (tx : Tx) (gaas : string)
  : DB * (Tx * option error) :=
  match db_Tx round db (Hash tx) false with
  | (_, Some ErrNoRows) =>
      let '(db', err) := db_InsertTx round db tx (negb (String.eqb gaas EmptyString)) in
      (db', (tx, err))
  | (stored, err) => (db, (stored, err))
  end.

(** The body of a worker's loop for one request. *)
Definition serve (db : DB) (round : DBRound) (req : RequestWithResponder)
  : outcome (DB * Reply) :=
  match ReqParams req with
  | OtherParams => Panics "interface conversion: interface {} is not jsonrpc.ParamsSubmitTx"
  | SubmitTxParams params =>
      match verify params with
      | Err err => Returns (db, RespondWithErr ErrorCodeInvalidParams err)
      | Ok tx =>
          let gaas := Query_gaas req in
          match checkDuplicate db round tx gaas with
          | (db', (_, Some err)) => Returns (db', RespondWithErr ErrorCodeInternal err)
          | (db', (tx, None)) =>
              Returns (db', NewResponse (ID req) {| ResponseTx := tx |})
          end
      end
  end.

(** [Run]: the workers take requests off one channel; [verify] and the
    reply touch no shared state and [checkDuplicate] is atomic, so a run
    is the requests served one after the other in the order in which
    they pass through the lock. *)
Fixpoint Run (db : DB) (requests : list (RequestWithResponder * DBRound))
  : outcome (DB * list Reply) :=
  match requests with
  | [] => Returns (db, [])
  | (req, round) :: rest =>
      match serve db round req with
      | Panics msg => Panics msg
      | Returns (db', reply) =>
          match Run db' rest with
          | Panics msg => Panics msg
          | Returns (db'', replies) => Returns (db'', reply :: replies)
          end
      end
  end.

End WithTransform.

(** A reply that answers a request: a response carrying the request's id,
    or one of the two errors [Run] responds with. *)
Definition answers (req : RequestWithResponder) (reply : Reply) : Prop :=
  match reply with
  | RespondWithErr code _ => code = ErrorCodeInvalidParams \/ code = ErrorCodeInternal
  | NewResponse id _ => id = ID req
  end.

End Resolver.


(** ** Concrete inputs *)

Module Scenario.

(** Values stored as their own encoding. *)
#[global] Instance json_bytes : Store.Json bytes :=
  {| Store.Marshal := fun v => Ok v; Store.Unmarshal := fun b => Ok b |}.

(** A cache with a ten-second TTL and one entry written at time 0. *)
Definition one_entry : Store.cache :=
  fst (Store.Write (Store.NewCache 10) 0 "block" [Byte.x31]).

(** Two stored peers: the first refuses the connection, the second answers. *)
Definition parse_multiaddr (s : string) : result string :=
  if String.prefix "/ip4/" s then Ok s
  else Err (ErrOther "invalid multi address").

Definition answer : Dispatcher.Response :=
  {| Dispatcher.Version := "2.0"; Dispatcher.ID := 7;
     Dispatcher.Result := Some [Byte.x7b; Byte.x7d]; Dispatcher.Error := None |}.

Definition error_envelope : Dispatcher.Response :=
  {| Dispatcher.Version := "2.0"; Dispatcher.ID := 7;
     Dispatcher.Result := None;
     Dispatcher.Error :=
       Some {| Dispatcher.Code := -32603; Dispatcher.Message := "internal error" |} |}.

Definition dead_addr : string := "/ip4/10.0.0.1/tcp/18515".
Definition live_addr : string := "/ip4/10.0.0.2/tcp/18515".

Definition send (a : string) (request : Dispatcher.Request) : result Dispatcher.Response :=
  if String.eqb a live_addr then Ok answer
  else Err (ErrOther "connection refused").

#[global] Instance peers : Dispatcher.Peers :=
  {| Dispatcher.MultiAddress := string;
     Dispatcher.NewMultiAddressFromString := parse_multiaddr;
     Dispatcher.SendToDarknode := send |}.

Definition dead_peer : Dispatcher.MultiAddress := dead_addr.
Definition live_peer : Dispatcher.MultiAddress := live_addr.

Definition queryBlock : Dispatcher.Request :=
  {| Dispatcher.ReqID := 7; Dispatcher.Method := "ren_queryBlock";
     Dispatcher.ReqParams := [] |}.

Definition two_peers : Dispatcher.Dispatcher :=
  {| Dispatcher.timeout := 10; Dispatcher.multiStore := [Ok dead_addr; Ok live_addr] |}.

Definition no_peers : Dispatcher.Dispatcher :=
  {| Dispatcher.timeout := 10; Dispatcher.multiStore := [] |}.

Definition bad_peer : Dispatcher.Dispatcher :=
  {| Dispatcher.timeout := 10; Dispatcher.multiStore := [Ok "10.0.0.1:18515"] |}.

(** Libraries for the watcher: every address decodes unless it starts with
    [bad]; hashes are tagged copies of what they hash. *)
#[global] Instance libs : Watcher.Libs :=
  {| Watcher.isUTXOAsset := fun sel => String.prefix "BTC" sel;
     Watcher.DecodeAddress := fun _ to =>
       if String.prefix "bad" to then Some (ErrOther "cannot decode address") else None;
     Watcher.base58_Encode := fun s => String "b" s;
     Watcher.bindings_DecodeAddress := fun _ to => Ok to;
     Watcher.Phash := fun payload => String "p" payload;
     Watcher.Nhash := fun nonce txid _ => String "n" txid;
     Watcher.Ghash := fun _ phash to _ => String "g" to;
     Watcher.pack_Encode := fun _ => None;
     Watcher.NewTxHash := fun _ _ input => Ok (String "t" (Watcher.Txid input));
     Watcher.v0_BurnTxHash := fun _ nonce => String "v" (Watcher.formatUint nonce);
     Watcher.hash_String := fun h => String "#" h |}.

Definition btc_watcher : Watcher.Watcher :=
  Watcher.NewWatcher "BTC/fromEthereum" "gpubkey".

Definition accepted : Watcher.Response := {| Watcher.ResponseError := None |}.

Definition no_logs : Watcher.LogBurnIterator :=
  {| Watcher.events := []; Watcher.errorAtReturn := None;
     Watcher.errorAfterLoop := None; Watcher.closeError := None |}.

(** A round with the head at [head], a healthy cache and node, and no burn
    in range. *)
Definition quiet_round (head : Z) : Watcher.Round :=
  {| Watcher.HeaderByNumber := Ok head;
     Watcher.redisFault := fun _ => None;
     Watcher.FilterLogBurn := fun _ _ => Ok no_logs;
     Watcher.SubmitTx := fun _ => accepted |}.

Definition burn1 : Watcher.LogBurn :=
  {| Watcher.To := "1BoatSLRHtKNngkdXEeobR76b53LETtpyT"; Watcher.Amount := 50000;
     Watcher.N := 1; Watcher.TxHash := "0xaa" |}.

Definition burn2 : Watcher.LogBurn :=
  {| Watcher.To := "1A1zP1eP5QGefi2DMPTfTL5SLmv7DivfNa"; Watcher.Amount := 70000;
     Watcher.N := 2; Watcher.TxHash := "0xbb" |}.

Definition two_logs : Watcher.LogBurnIterator :=
  {| Watcher.events := [burn1; burn2]; Watcher.errorAtReturn := None;
     Watcher.errorAfterLoop := None; Watcher.closeError := None |}.

(** A round with the head at [head] and two burns in range. *)
Definition busy_round (head : Z) : Watcher.Round :=
  {| Watcher.HeaderByNumber := Ok head;
     Watcher.redisFault := fun _ => None;
     Watcher.FilterLogBurn := fun _ _ => Ok two_logs;
     Watcher.SubmitTx := fun _ => accepted |}.

(** A round in which the node refuses the log filter. *)
Definition filter_down (head : Z) : Watcher.Round :=
  {| Watcher.HeaderByNumber := Ok head;
     Watcher.redisFault := fun _ => None;
     Watcher.FilterLogBurn := fun _ _ => Err (ErrOther "filter: connection reset");
     Watcher.SubmitTx := fun _ => accepted |}.

(** The cache holding only the watcher's cursor. *)
Definition cursor_at (watcher : Watcher.Watcher) (last : Z) : gmap string string :=
  {[ Watcher.key watcher := Watcher.formatUint last ]}.

(** The transformation library for the checker: a transaction needs a
    contract address, its hash is derived from the address and the first
    argument, and the chain accepts every UTXO and burn. *)
#[global] Instance transform : Resolver.Transform :=
  {| Resolver.ValidateTxParams := fun tx =>
       if String.eqb (Resolver.To tx) EmptyString then Some (ErrOther "unknown contract address")
       else None;
     Resolver.PHash := fun tx =>
       match Resolver.In tx with
       | [] => Err (ErrOther "missing argument p")
       | _ => Ok tx
       end;
     Resolver.GHash := fun tx => tx;
     Resolver.NHash := fun tx => tx;
     Resolver.TxHash := fun tx =>
       {| Resolver.Hash :=
            Resolver.To tx ++ ":" ++ match Resolver.In tx with
                                     | (_, v) :: _ => v
                                     | [] => EmptyString
                                     end;
          Resolver.To := Resolver.To tx; Resolver.In := Resolver.In tx;
          Resolver.Autogen := Resolver.Autogen tx; Resolver.Out := Resolver.Out tx |};
     Resolver.IsShiftIn := fun to => String.prefix "BTC0Btc2Eth" to;
     Resolver.ValidateUtxo := fun tx => Ok tx;
     Resolver.Sighash := fun tx => tx;
     Resolver.AddShiftOutDetails := fun tx => Ok tx |}.

Definition mint : Resolver.Tx :=
  {| Resolver.Hash := EmptyString; Resolver.To := "BTC0Btc2Eth";
     Resolver.In := [("p", "payload-1")]; Resolver.Autogen := []; Resolver.Out := [] |}.

Definition mint_checked : Resolver.Tx :=
  {| Resolver.Hash := "BTC0Btc2Eth:payload-1"; Resolver.To := "BTC0Btc2Eth";
     Resolver.In := [("p", "payload-1")]; Resolver.Autogen := []; Resolver.Out := [] |}.

Definition submit (id : Z) (tx : Resolver.Tx) : Resolver.RequestWithResponder :=
  {| Resolver.ID := id;
     Resolver.ReqParams := Resolver.SubmitTxParams {| Resolver.ParamsTx := tx |};
     Resolver.Query_gaas := EmptyString |}.

(** A submission without a contract address. *)
Definition malformed : Resolver.Tx :=
  {| Resolver.Hash := EmptyString; Resolver.To := EmptyString;
     Resolver.In := [("p", "payload-2")]; Resolver.Autogen := []; Resolver.Out := [] |}.

Definition healthy (now : Z) : Resolver.DBRound :=
  {| Resolver.txFault := None; Resolver.insertFault := None; Resolver.now := now |}.

(** Libraries whose destination chain refuses addresses starting with
    [bad]; everything else as in [libs]. *)
Definition strict_libs : Watcher.Libs :=
  {| Watcher.isUTXOAsset := fun sel => String.prefix "BTC" sel;
     Watcher.DecodeAddress := fun _ to =>
       if String.prefix "bad" to then Some (ErrOther "cannot decode address") else None;
     Watcher.base58_Encode := fun s => String "b" s;
     Watcher.bindings_DecodeAddress := fun _ to =>
       if String.prefix "bbad" to then Err (ErrOther "unknown address format")
       else Ok to;
     Watcher.Phash := fun payload => String "p" payload;
     Watcher.Nhash := fun nonce txid _ => String "n" txid;
     Watcher.Ghash := fun _ phash to _ => String "g" to;
     Watcher.pack_Encode := fun _ => None;
     Watcher.NewTxHash := fun _ _ input => Ok (String "t" (Watcher.Txid input));
     Watcher.v0_BurnTxHash := fun _ nonce => String "v" (Watcher.formatUint nonce);
     Watcher.hash_String := fun h => String "#" h |}.

(** A burn whose recipient bytes are not an address. *)
Definition burn3 : Watcher.LogBurn :=
  {| Watcher.To := "bad3"; Watcher.Amount := 20000;
     Watcher.N := 3; Watcher.TxHash := "0xcc" |}.

Definition bad_log : Watcher.LogBurnIterator :=
  {| Watcher.events := [burn3]; Watcher.errorAtReturn := None;
     Watcher.errorAfterLoop := None; Watcher.closeError := None |}.

(** A round with the head at [head] and that one burn in range. *)
Definition bad_round (head : Z) : Watcher.Round :=
  {| Watcher.HeaderByNumber := Ok head;
     Watcher.redisFault := fun _ => None;
     Watcher.FilterLogBurn := fun _ _ => Ok bad_log;
     Watcher.SubmitTx := fun _ => accepted |}.

(** A database whose insert fails. *)
Definition disk_full (now : Z) : Resolver.DBRound :=
  {| Resolver.txFault := None; Resolver.insertFault := Some "disk full";
     Resolver.now := now |}.

End Scenario.

(** * Properties *)

(** ** The cache *)

Section CacheFacts.
Context {V : Type} `{Store.Json V}.

Lemma len_nonneg {A : Type} (l : list A) : 0 <= len l.
Proof. unfold len. lia. Qed.

Lemma slice_index_negative {A : Type} (s : list A) (i : Z) :
  i < 0 -> slice_index s i = Panics "runtime error: index out of range".
Proof.
  intros Hi. unfold slice_index.
  destruct (0 <=? i) eqn:E; [apply Z.leb_le in E; lia | reflexivity].
Qed.

Lemma slice_index_head {A : Type} (x : A) (s : list A) :
  slice_index (x :: s) 0 = Returns x.
Proof.
  unfold slice_index, len. cbn [length].
  destruct (0 <? Z.of_nat (S (length s))) eqn:E; [reflexivity|].
  apply Z.ltb_ge in E. lia.
Qed.

Lemma expiry_check_expired (c : Store.cache) (now : Z) (key : string) (seen : Z) :
  0 < Store.timeToLive c ->
  Store.lastSeen c !! key = Some seen ->
  Store.timeToLive c < sub_i64 now seen ->
  Store.expiry_check c now key = Some ErrDataExpired.
Proof.
  intros Httl Hseen Hold. unfold Store.expiry_check.
  rewrite (proj2 (Z.ltb_lt _ _) Httl), Hseen.
  now rewrite (proj2 (Z.ltb_lt _ _) Hold).
Qed.

Lemma Entries_counts (c : Store.cache) (key : string) (val : bytes) :
  Store.data c !! key = Some val -> 1 <= Store.Entries c.
Proof.
  intros Hval. unfold Store.Entries.
  destruct (size (Store.data c)) as [|n] eqn:Hsize; [|lia].
  apply map_size_empty_iff in Hsize. rewrite Hsize in Hval.
  now rewrite lookup_empty in Hval.
Qed.

Lemma apply_update_other (c : Store.cache) (u : Store.Update V) (key : string) :
  Store.updated_key u <> key ->
  Store.timeToLive (Store.apply_update c u) = Store.timeToLive c
  /\ Store.data (Store.apply_update c u) !! key = Store.data c !! key
  /\ Store.lastSeen (Store.apply_update c u) !! key = Store.lastSeen c !! key.
Proof.
  intros Hne. destruct u as [now k value | k]; cbn in Hne |- *.
  - unfold Store.Write. destruct (Store.Marshal value); cbn; [|auto].
    split; [reflexivity|]. split; [now apply lookup_insert_ne|].
    destruct (0 <? Store.timeToLive c); [now apply lookup_insert_ne | reflexivity].
  - split; [reflexivity|]. split; now apply lookup_delete_ne.
Qed.

Lemma apply_updates_other (us : list (Store.Update V)) (key : string) :
  Forall (fun u => Store.updated_key u <> key) us ->
  forall c,
    Store.timeToLive (Store.apply_updates c us) = Store.timeToLive c
    /\ Store.data (Store.apply_updates c us) !! key = Store.data c !! key
    /\ Store.lastSeen (Store.apply_updates c us) !! key = Store.lastSeen c !! key.
Proof.
  unfold Store.apply_updates.
  induction 1 as [|u us Hu _ IH]; intros c; cbn; [auto|].
  destruct (IH (Store.apply_update c u)) as (-> & -> & ->).
  now apply apply_update_other.
Qed.

Lemma Write_stores (c : Store.cache) (now : Z) (key : string) (value : V) (val : bytes) :
  0 < Store.timeToLive c ->
  Store.Marshal value = Ok val ->
  Store.timeToLive (Store.Write c now key value).1 = Store.timeToLive c
  /\ Store.data (Store.Write c now key value).1 !! key = Some val
  /\ Store.lastSeen (Store.Write c now key value).1 !! key = Some now.
Proof.
  intros Httl Hval. unfold Store.Write. rewrite Hval. cbn.
  rewrite (proj2 (Z.ltb_lt _ _) Httl).
  split; [reflexivity|]. split; apply lookup_insert_eq.
Qed.

(** C8, as the code has it: with a positive TTL, an entry written at time
    [t] and since then neither overwritten nor deleted is, at any time more
    than TTL after [t], reported by [Read] as [ErrDataExpired] instead of
    being returned; it is not removed: it is still in the map and [Entries]
    counts it. *)
Theorem Read_expired_entry_is_reported_and_kept
  (c : Store.cache) (t : Z) (key : string) (value : V) (val : bytes)
  (later : list (Store.Update V)) (now : Z) :
  0 < Store.timeToLive c ->
  Store.Marshal value = Ok val ->
  Forall (fun u => Store.updated_key u <> key) later ->
  Store.timeToLive c < sub_i64 now t ->
  let c' := Store.apply_updates (Store.Write c t key value).1 later in
  Store.Read (V := V) c' now key = Err ErrDataExpired
  /\ Store.data c' !! key = Some val
  /\ 1 <= Store.Entries c'.
Proof.
  intros Httl Hval Hlater Hold c'.
  destruct (Write_stores c t key value val Httl Hval) as (Httl1 & Hdata1 & Hseen1).
  destruct (apply_updates_other later key Hlater (Store.Write c t key value).1)
    as (Httl2 & Hdata2 & Hseen2).
  fold c' in Httl2, Hdata2, Hseen2.
  rewrite Httl1 in Httl2. rewrite Hdata1 in Hdata2. rewrite Hseen1 in Hseen2.
  split; [|split].
  - unfold Store.Read.
    rewrite (expiry_check_expired c' now key t); [reflexivity | lia | assumption | lia].
  - exact Hdata2.
  - exact (Entries_counts c' key val Hdata2).
Qed.

(** The intended use is safe: after a [Next] that answered [true], [KV]
    returns. *)
Lemma KV_after_first_Next (c : Store.cache) (iter : Store.cacheIterator) :
  Store.Next (Store.Iterator c) = (iter, true) ->
  exists r, Store.KV (V := V) iter = Returns r.
Proof.
  unfold Store.Next, Store.Iterator, Store.newCacheIterator.
  cbn [Store.index Store.keys Store.values].
  change (add_i64 (-1) 1) with 0. intros [= <- Hlt].
  unfold Store.KV. cbn [Store.index Store.keys Store.values].
  apply Z.ltb_lt in Hlt. unfold len in *. rewrite length_fmap in Hlt.
  destruct (map_to_list (Store.data c)) as [|[k val] rest]; [cbn in Hlt; lia|].
  rewrite !fmap_cons. cbn [fst snd].
  rewrite !slice_index_head.
  destruct (len (k :: rest.*1) <=? 0) eqn:E.
  - apply Z.leb_le in E. unfold len in E. cbn [length] in E. lia.
  - destruct (Store.Unmarshal val); eauto.
Qed.

(** C10: on the iterator of any cache, [KV] called before the first [Next]
    reads [values[-1]] and panics; it does not return [ErrNoMoreItems]. *)
Theorem KV_before_Next_panics (c : Store.cache) :
  Store.KV (V := V) (Store.Iterator c)
  = Panics "runtime error: index out of range".
Proof.
  unfold Store.KV, Store.Iterator, Store.newCacheIterator.
  cbn [Store.index Store.keys Store.values].
  pose proof (len_nonneg (map_to_list (Store.data c)).*1) as Hlen.
  destruct (len (map_to_list (Store.data c)).*1 <=? -1) eqn:E.
  - apply Z.leb_le in E. lia.
  - now rewrite slice_index_negative by lia.
Qed.

End CacheFacts.

(** C8, the claim as stated fails: ninety seconds after its TTL ran out the
    entry is still in the map, [Entries] counts it, and a read reports
    [ErrDataExpired] rather than a missing key. *)
Lemma expired_entry_still_stored :
  Store.timeToLive Scenario.one_entry < sub_i64 100 0
  /\ Store.lastSeen Scenario.one_entry !! "block" = Some 0
  /\ Store.data Scenario.one_entry !! "block" = Some [Byte.x31]
  /\ Store.Entries Scenario.one_entry = 1
  /\ Store.Read (V := bytes) Scenario.one_entry 100 "block" = Err ErrDataExpired.
Proof. repeat split; vm_compute; reflexivity. Qed.

Lemma Read_expired_entry_witness :
  let c' := Store.apply_updates Scenario.one_entry
              [Store.DoWrite 50 "peers" [Byte.x32]; Store.DoDelete "fees"] in
  Store.Read (V := bytes) c' 100 "block" = Err ErrDataExpired
  /\ Store.data c' !! "block" = Some [Byte.x31]
  /\ 1 <= Store.Entries c'.
Proof.
  apply (Read_expired_entry_is_reported_and_kept
           (Store.NewCache 10) 0 "block" [Byte.x31] [Byte.x31]
           [Store.DoWrite 50 "peers" [Byte.x32]; Store.DoDelete "fees"] 100).
  - reflexivity.
  - reflexivity.
  - repeat constructor; discriminate.
  - reflexivity.
Defined.

(** C10 at a concrete cache: one entry, [KV] before [Next]. *)
Example KV_before_Next_one_entry :
  Store.KV (V := bytes) (Store.Iterator Scenario.one_entry)
  = Panics "runtime error: index out of range".
Proof. vm_compute. reflexivity. Qed.

(** ** The dispatcher *)

Section DispatcherFacts.
Context `{Dispatcher.Peers}.

Lemma multiAddrs_single (store : Dispatcher.Iterable) (method : string)
      (addrs : list Dispatcher.MultiAddress) :
  Dispatcher.multiAddrs store method = Returns addrs ->
  exists str rest address,
    store = Ok str :: rest
    /\ Dispatcher.NewMultiAddressFromString str = Ok address
    /\ addrs = [address].
Proof.
  unfold Dispatcher.multiAddrs. intros Haddrs.
  destruct store as [|[str|e] rest]; try discriminate.
  destruct (Dispatcher.NewMultiAddressFromString str) as [address|e] eqn:Hparse;
    try discriminate.
  injection Haddrs as <-. now exists str, rest, address.
Qed.

Lemma receive_first (method : string) (n i : Z) (res : Dispatcher.Response)
      (rest : list Dispatcher.Response) :
  Dispatcher.receive (Dispatcher.responseIterator method) n i (res :: rest) = res.
Proof. reflexivity. Qed.

(** C6, as the code has it: the first-response policy stops at the first
    response taken off the channel, whatever it holds; [Handle] contacts the
    first stored address only and delivers what that call produced: the
    peer's response, error envelope or not, or the empty response when the
    call failed. *)
Theorem Handle_delivers_first_arrival
  (dispatcher : Dispatcher.Dispatcher) (request : Dispatcher.Request)
  (addrs : list Dispatcher.MultiAddress) (responses : list Dispatcher.Response) :
  Dispatcher.multiAddrs (Dispatcher.multiStore dispatcher) (Dispatcher.Method request)
    = Returns addrs ->
  Dispatcher.arrival_of addrs request responses ->
  (exists address,
      addrs = [address]
      /\ Dispatcher.Handle dispatcher (Dispatcher.RequestWithResponder request) responses
         = Returns (Dispatcher.peer_response request address))
  /\ (forall n i res rest,
         Dispatcher.receive (Dispatcher.responseIterator (Dispatcher.Method request))
                            n i (res :: rest) = res).
Proof.
  intros Haddrs Harrival. split.
  - destruct (multiAddrs_single _ _ _ Haddrs) as (str & rest & address & _ & _ & ->).
    exists address. split; [reflexivity|].
    unfold Dispatcher.arrival_of in Harrival. cbn in Harrival.
    apply Permutation_sym, Permutation_length_1_inv in Harrival. subst responses.
    unfold Dispatcher.Handle. rewrite Haddrs. now rewrite receive_first.
  - intros n i res rest. apply receive_first.
Qed.

(** C9, as the code has it: an empty address store, a key that cannot be
    read and a stored address that does not parse each make [multiAddrs]
    panic, and [Handle] with it, before anything is sent to the responder. *)
Theorem Handle_panics_on_logic_violation
  (dispatcher : Dispatcher.Dispatcher) (request : Dispatcher.Request)
  (responses : list Dispatcher.Response) :
  let store := Dispatcher.multiStore dispatcher in
  let method := Dispatcher.Method request in
  let message := Dispatcher.RequestWithResponder request in
  (store = [] ->
   Dispatcher.multiAddrs store method = Panics "[dispatcher] empty address store"
   /\ Dispatcher.Handle dispatcher message responses
      = Panics "[dispatcher] empty address store")
  /\ (forall e rest, store = Err e :: rest ->
      Dispatcher.multiAddrs store method = Panics "[dispatcher] empty address store"
      /\ Dispatcher.Handle dispatcher message responses
         = Panics "[dispatcher] empty address store")
  /\ (forall str rest e, store = Ok str :: rest ->
      Dispatcher.NewMultiAddressFromString str = Err e ->
      Dispatcher.multiAddrs store method
        = Panics "[dispatcher] incorrectly stored multi address"
      /\ Dispatcher.Handle dispatcher message responses
         = Panics "[dispatcher] incorrectly stored multi address").
Proof.
  cbv zeta. unfold Dispatcher.Handle. split; [|split].
  - intros Hempty. now rewrite Hempty.
  - intros e rest Hkey. now rewrite Hkey.
  - intros str rest e Hkey Hparse. rewrite Hkey. cbn. now rewrite Hparse.
Qed.

End DispatcherFacts.

(** C6, the claim as stated fails.  With a dead peer stored before a live
    one, [Handle] delivers the empty response of the failed call although
    the live peer would have answered; and on a channel holding an error
    envelope followed by a successful response the first-response policy
    returns the error envelope. *)
Lemma first_response_may_be_an_error :
  Dispatcher.multiAddrs (Dispatcher.multiStore Scenario.two_peers) "ren_queryBlock"
    = Returns [Scenario.dead_peer]
  /\ Dispatcher.arrival_of [Scenario.dead_peer] Scenario.queryBlock [Dispatcher.zeroResponse]
  /\ Dispatcher.Handle Scenario.two_peers (Dispatcher.RequestWithResponder Scenario.queryBlock)
                       [Dispatcher.zeroResponse]
     = Returns Dispatcher.zeroResponse
  /\ Dispatcher.successful Dispatcher.zeroResponse = false
  /\ Dispatcher.SendToDarknode Scenario.live_peer Scenario.queryBlock = Ok Scenario.answer
  /\ Dispatcher.successful Scenario.answer = true
  /\ Dispatcher.receive (Dispatcher.responseIterator "ren_queryBlock") 2 1
                        [Scenario.error_envelope; Scenario.answer]
     = Scenario.error_envelope
  /\ Dispatcher.successful Scenario.error_envelope = false.
Proof.
  split; [vm_compute; reflexivity|].
  split; [unfold Dispatcher.arrival_of; vm_compute; apply Permutation_refl|].
  repeat split; vm_compute; reflexivity.
Qed.

Lemma Handle_delivers_first_arrival_witness :
  (exists address,
      [Scenario.dead_peer] = [address]
      /\ Dispatcher.Handle Scenario.two_peers (Dispatcher.RequestWithResponder Scenario.queryBlock)
                           [Dispatcher.zeroResponse]
         = Returns (Dispatcher.peer_response Scenario.queryBlock address))
  /\ (forall n i res rest,
         Dispatcher.receive (Dispatcher.responseIterator "ren_queryBlock")
                            n i (res :: rest) = res).
Proof.
  apply (Handle_delivers_first_arrival Scenario.two_peers Scenario.queryBlock
           [Scenario.dead_peer] [Dispatcher.zeroResponse]).
  - vm_compute. reflexivity.
  - unfold Dispatcher.arrival_of. vm_compute. apply Permutation_refl.
Defined.

(** C9, the claim as stated fails: with no stored address, and with a stored
    key that is not a multi-address, [multiAddrs] and [Handle] panic. *)
Lemma dispatcher_panics_on_empty_store :
  Dispatcher.multiAddrs (Dispatcher.multiStore Scenario.no_peers) "ren_queryBlock"
    = Panics "[dispatcher] empty address store"
  /\ Dispatcher.Handle Scenario.no_peers (Dispatcher.RequestWithResponder Scenario.queryBlock) []
     = Panics "[dispatcher] empty address store"
  /\ Dispatcher.multiAddrs (Dispatcher.multiStore Scenario.bad_peer) "ren_queryBlock"
     = Panics "[dispatcher] incorrectly stored multi address"
  /\ Dispatcher.Handle Scenario.bad_peer (Dispatcher.RequestWithResponder Scenario.queryBlock) []
     = Panics "[dispatcher] incorrectly stored multi address".
Proof. repeat split; vm_compute; reflexivity. Qed.

Lemma Handle_panics_on_logic_violation_witness :
  (Dispatcher.multiAddrs (Dispatcher.multiStore Scenario.no_peers) "ren_queryBlock"
     = Panics "[dispatcher] empty address store"
   /\ Dispatcher.Handle Scenario.no_peers (Dispatcher.RequestWithResponder Scenario.queryBlock) []
      = Panics "[dispatcher] empty address store")
  /\ (Dispatcher.multiAddrs (Dispatcher.multiStore Scenario.bad_peer) "ren_queryBlock"
        = Panics "[dispatcher] incorrectly stored multi address"
      /\ Dispatcher.Handle Scenario.bad_peer (Dispatcher.RequestWithResponder Scenario.queryBlock) []
         = Panics "[dispatcher] incorrectly stored multi address").
Proof.
  split.
  - apply (Handle_panics_on_logic_violation Scenario.no_peers Scenario.queryBlock []).
    reflexivity.
  - apply (Handle_panics_on_logic_violation Scenario.bad_peer Scenario.queryBlock [])
      with (str := "10.0.0.1:18515") (rest := [])
           (e := ErrOther "invalid multi address");
      reflexivity.
Defined.

(** ** The watcher *)

Lemma wrap_u64_range (z : Z) : 0 <= wrap_u64 z < two64.
Proof. unfold wrap_u64. apply Z.mod_pos_bound. reflexivity. Qed.

Lemma wrap_u64_small (z : Z) : 0 <= z < two64 -> wrap_u64 z = z.
Proof. intros Hz. unfold wrap_u64. now apply Z.mod_small. Qed.

Lemma parseUint_range (s : string) (n : Z) :
  Watcher.parseUint s = Ok n -> 0 <= n < two64.
Proof.
  unfold Watcher.parseUint.
  destruct (NilZero.uint_of_string s) as [d|]; [|discriminate].
  destruct (Z.of_N (N.of_uint d) <? two64) eqn:E; [|discriminate].
  intros [= <-]. apply Z.ltb_lt in E. lia.
Qed.

Lemma parseUint_error (s : string) (e : error) :
  Watcher.parseUint s = Err e -> exists msg, e = ErrOther msg.
Proof.
  unfold Watcher.parseUint.
  destruct (NilZero.uint_of_string s); [destruct (_ <? _); [discriminate|]|];
    intros [= <-]; eauto.
Qed.

Lemma parseUint_formatUint (n : Z) :
  0 <= n < two64 -> Watcher.parseUint (Watcher.formatUint n) = Ok n.
Proof.
  intros Hn. unfold Watcher.parseUint, Watcher.formatUint.
  rewrite NilZero.usu.
  - rewrite DecimalN.Unsigned.of_to, Z2N.id by lia.
    now rewrite (proj2 (Z.ltb_lt _ _) (proj2 Hn)).
  - destruct (Z.to_N n) as [|p]; [discriminate|].
    apply DecimalPos.Unsigned.to_uint_nonnil.
Qed.

(** The decimal digits of a number are never the cursor key's suffix. *)
Lemma formatUint_not_suffix (n : Z) : Watcher.formatUint n <> "lastCheckedBlock".
Proof.
  unfold Watcher.formatUint. intros Heq.
  assert (Hparse : NilZero.uint_of_string "lastCheckedBlock" <> None).
  { rewrite <- Heq.
    destruct (NilZero.usu_gen (N.to_uint (Z.to_N n))) as [-> | ->]; discriminate. }
  apply Hparse. reflexivity.
Qed.

Lemma burn_ref_key_not_cursor_key (watcher : Watcher.Watcher) (nonce : Z) :
  Watcher.selector watcher ++ "_" ++ Watcher.formatUint nonce <> Watcher.key watcher.
Proof.
  unfold Watcher.key. intros Heq.
  apply String.app_inj in Heq. cbn in Heq.
  injection Heq as Heq. now apply formatUint_not_suffix in Heq.
Qed.

Lemma redis_Set_other (fault : option string) (cache : gmap string string)
      (k v k' : string) :
  k <> k' -> (Watcher.redis_Set fault cache k v).1 !! k' = cache !! k'.
Proof.
  intros Hne. unfold Watcher.redis_Set.
  destruct fault; cbn; [reflexivity | now apply lookup_insert_ne].
Qed.

Section WatcherFacts.
Context `{Watcher.Libs}.

Lemma burnToParams_keeps_cursor
      (watcher : Watcher.Watcher) (round : Watcher.Round) (cache : gmap string string)
      (txid : string) (amount : Z) (to : string) (nonce : Z) (pk : string) :
  (forall h, Watcher.hash_String h <> Watcher.key watcher) ->
  (Watcher.burnToParams watcher round cache txid amount to nonce pk).1
    !! Watcher.key watcher
  = cache !! Watcher.key watcher.
Proof.
  intros Hhash. unfold Watcher.burnToParams.
  destruct (Watcher.burn_recipient watcher to) as [[version to']|e]; [|reflexivity].
  destruct (Watcher.bindings_DecodeAddress _ to') as [decoded|e]; [|reflexivity].
  destruct (Watcher.pack_Encode _) as [e|]; [reflexivity|].
  destruct (Watcher.NewTxHash _ _ _) as [hash|e]; [|reflexivity].
  cbn [fst].
  rewrite redis_Set_other by apply burn_ref_key_not_cursor_key.
  now rewrite redis_Set_other by apply Hhash.
Qed.

Lemma range_logs_keeps_cursor
      (watcher : Watcher.Watcher) (round : Watcher.Round) (c : list Watcher.BurnLogResult) :
  (forall h, Watcher.hash_String h <> Watcher.key watcher) ->
  forall cache,
    (Watcher.range_logs watcher round cache c).1.1 !! Watcher.key watcher
    = cache !! Watcher.key watcher.
Proof.
  intros Hhash. induction c as [|res rest IH]; intros cache; [reflexivity|].
  cbn [Watcher.range_logs].
  destruct (Watcher.Error res); [reflexivity|].
  pose proof (burnToParams_keeps_cursor watcher round cache
                (Watcher.TxHash (Watcher.Result res))
                (wrap_u64 (Watcher.Amount (Watcher.Result res)))
                (Watcher.To (Watcher.Result res))
                (wrap_u64 (Watcher.N (Watcher.Result res)))
                (Watcher.gpubkey watcher) Hhash) as Hstep.
  destruct (Watcher.burnToParams _ _ _ _ _ _ _ _) as [cache' [params|e]];
    cbn [fst] in Hstep.
  - specialize (IH cache').
    destruct (Watcher.range_logs watcher round cache' rest) as [[cache'' subs] err].
    cbn [fst] in *. congruence.
  - rewrite IH. exact Hstep.
Qed.

(** The loop hands over at most one request per error-free result. *)
Lemma range_logs_submitted_bound
      (watcher : Watcher.Watcher) (round : Watcher.Round) (c : list Watcher.BurnLogResult) :
  forall cache,
    (length (Watcher.range_logs watcher round cache c).1.2
     <= length (List.filter Watcher.no_error c))%nat.
Proof.
  induction c as [|res rest IH]; intros cache; [reflexivity|].
  cbn [Watcher.range_logs List.filter]. unfold Watcher.no_error at 1.
  destruct (Watcher.Error res); [cbn; lia|].
  destruct (Watcher.burnToParams _ _ _ _ _ _ _ _) as [cache' [params|e]].
  - specialize (IH cache').
    destruct (Watcher.range_logs watcher round cache' rest) as [[cache'' subs] err].
    cbn in *. lia.
  - specialize (IH cache'). cbn. lia.
Qed.

Lemma fetch_goroutine_events (iter : Watcher.LogBurnIterator) :
  List.filter Watcher.no_error (Watcher.fetch_goroutine iter)
  = Watcher.send_events (Watcher.events iter).
Proof.
  unfold Watcher.fetch_goroutine.
  rewrite !List.filter_app.
  assert (Herr : forall err, List.filter Watcher.no_error (Watcher.send_error err) = []).
  { intros [e|]; reflexivity. }
  rewrite !Herr, !app_nil_r.
  destruct (Watcher.events iter); reflexivity.
Qed.

Lemma FetchBurnLogs_delivers_at_most_one (round : Watcher.Round) (from to : Z) :
  (length (List.filter Watcher.no_error (Watcher.FetchBurnLogs round from to).1) <= 1)%nat.
Proof.
  unfold Watcher.FetchBurnLogs.
  destruct (Watcher.FilterLogBurn round from to) as [iter|e]; cbn [fst]; [|cbn; lia].
  rewrite fetch_goroutine_events.
  destruct (Watcher.events iter); cbn; lia.
Qed.

End WatcherFacts.

Section WatcherRound.
Context `{Watcher.Libs}.

Lemma currentBlockNumber_range (round : Watcher.Round) (cur : Z) :
  Watcher.currentBlockNumber round = Ok cur -> 0 <= cur < two64.
Proof.
  unfold Watcher.currentBlockNumber.
  destruct (Watcher.HeaderByNumber round); [|discriminate].
  intros [= <-]. apply wrap_u64_range.
Qed.

Lemma lastCheckedBlockNumber_range
      (watcher : Watcher.Watcher) (round : Watcher.Round)
      (cache cache' : gmap string string) (cur last : Z) :
  Watcher.lastCheckedBlockNumber watcher round cache cur = (cache', Ok last) ->
  0 <= last < two64.
Proof.
  unfold Watcher.lastCheckedBlockNumber, Watcher.Get_Uint64, Watcher.redis_Get.
  destruct (Watcher.redisFault round Watcher.GetCursor); [discriminate|].
  destruct (cache !! Watcher.key watcher) as [s|].
  - destruct (Watcher.parseUint s) as [n|e] eqn:Hparse; cbv iota.
    + intros [= _ <-]. now apply parseUint_range in Hparse.
    + apply parseUint_error in Hparse as [msg ->]. discriminate.
  - unfold Watcher.redis_Set. cbv iota.
    destruct (Watcher.redisFault round Watcher.InitCursor); [discriminate|].
    intros [= _ <-]. apply wrap_u64_range.
Qed.

(** What reading the cursor does to the cache: nothing when a cursor is
    stored; when none is, at most the initial [cur - 1]. *)
Lemma lastCheckedBlockNumber_cache
      (watcher : Watcher.Watcher) (round : Watcher.Round)
      (cache : gmap string string) (cur : Z) :
  let r := Watcher.lastCheckedBlockNumber watcher round cache cur in
  match cache !! Watcher.key watcher with
  | Some _ => r.1 = cache
  | None =>
      r.1 = cache
      \/ r = (<[Watcher.key watcher := Watcher.formatUint (sub_u64 cur 1)]> cache,
              Ok (sub_u64 cur 1))
  end.
Proof.
  cbv zeta.
  unfold Watcher.lastCheckedBlockNumber, Watcher.Get_Uint64, Watcher.redis_Get.
  destruct (cache !! Watcher.key watcher) as [s|] eqn:Hkey.
  - destruct (Watcher.redisFault round Watcher.GetCursor); [reflexivity|].
    destruct (Watcher.parseUint s) as [n|e] eqn:Hparse; [reflexivity|].
    now apply parseUint_error in Hparse as [msg ->].
  - destruct (Watcher.redisFault round Watcher.GetCursor); [now left|].
    unfold Watcher.redis_Set.
    destruct (Watcher.redisFault round Watcher.InitCursor); [now left | now right].
Qed.

Lemma target_spec (watcher : Watcher.Watcher) (cur last : Z) :
  Watcher.target watcher cur last
  = sub_u64 (Z.min cur (add_u64 last (Watcher.maxBlockAdvance watcher)))
            (Watcher.confidenceInterval watcher).
Proof.
  unfold Watcher.target.
  destruct (add_u64 last (Watcher.maxBlockAdvance watcher) <? cur) eqn:E.
  - apply Z.ltb_lt in E. now rewrite Z.min_r by lia.
  - apply Z.ltb_ge in E. now rewrite Z.min_l by lia.
Qed.

(** Every round that calls [FetchBurnLogs] calls it on the cursor it read
    and its target, and a completed round has stored that target. *)
Lemma round_fetches_target
      (watcher : Watcher.Watcher) (round : Watcher.Round)
      (cache cache' : gmap string string) (cur last : Z) :
  Watcher.currentBlockNumber round = Ok cur ->
  Watcher.lastCheckedBlockNumber watcher round cache cur = (cache', Ok last) ->
  last < cur ->
  let out := Watcher.watchLogShiftOuts watcher round cache in
  Watcher.fetched out = Some (last, Watcher.target watcher cur last)
  /\ (Watcher.exit out = Watcher.Completed ->
      Watcher.cache_after out !! Watcher.key watcher
      = Some (Watcher.formatUint (Watcher.target watcher cur last))).
Proof.
  intros Hcur Hlast Hlt. cbv zeta. unfold Watcher.watchLogShiftOuts.
  rewrite Hcur, Hlast.
  rewrite (proj2 (Z.leb_gt cur last) Hlt).
  destruct (Watcher.FetchBurnLogs round last _) as [c [e|]];
    [split; [reflexivity | discriminate]|].
  destruct (Watcher.range_logs watcher round cache' c) as [[cache'' subs] [e|]];
    [split; [reflexivity | discriminate]|].
  unfold Watcher.redis_Set.
  destruct (Watcher.redisFault round Watcher.SetCursor);
    [split; [reflexivity | discriminate]|].
  split; [reflexivity|]. intros _. cbn. apply lookup_insert_eq.
Qed.

(** The requests of a round come out of one [FetchBurnLogs] channel. *)
Lemma round_submitted_bound
      (watcher : Watcher.Watcher) (round : Watcher.Round) (cache : gmap string string) :
  (length (Watcher.submitted (Watcher.watchLogShiftOuts watcher round cache)) <= 1)%nat.
Proof.
  unfold Watcher.watchLogShiftOuts.
  destruct (Watcher.currentBlockNumber round) as [cur|e]; [|cbn; lia].
  destruct (Watcher.lastCheckedBlockNumber watcher round cache cur)
    as [cache' [last|e]]; [|cbn; lia].
  destruct (cur <=? last); [cbn; lia|].
  pose proof (FetchBurnLogs_delivers_at_most_one round last
                (Watcher.target watcher cur last)) as Hfetch.
  destruct (Watcher.FetchBurnLogs round last _) as [c [e|]]; [cbn; lia|].
  cbn [fst] in Hfetch.
  pose proof (range_logs_submitted_bound watcher round c cache') as Hrange.
  destruct (Watcher.range_logs watcher round cache' c) as [[cache'' subs] [e|]];
    cbn [fst snd] in Hrange.
  - cbn. lia.
  - destruct (Watcher.redis_Set _ _ _ _) as [cache3 [e|]]; cbn; lia.
Qed.

End WatcherRound.

Section WatcherClaims.
Context `{Watcher.Libs}.

(** C2: with a stored cursor [last] and the head at [last + 1], a round
    that meets no error reads [last], fetches up to [last - 5] and stores
    [last - 5]: the persisted cursor moves backwards. *)
Theorem cursor_moves_back_when_head_is_next_block (sel pk : string) (last : Z) :
  5 <= last ->
  last + 1000 < two64 ->
  let watcher := Watcher.NewWatcher sel pk in
  let cache := Scenario.cursor_at watcher last in
  let out := Watcher.watchLogShiftOuts watcher (Scenario.quiet_round (last + 1)) cache in
  Watcher.Get_Uint64 None cache (Watcher.key watcher) = Ok last
  /\ Watcher.exit out = Watcher.Completed
  /\ Watcher.fetched out = Some (last, last - 5)
  /\ Watcher.Get_Uint64 None (Watcher.cache_after out) (Watcher.key watcher)
     = Ok (last - 5)
  /\ last - 5 < last.
Proof.
  intros Hlo Hhi watcher cache out.
  assert (Hu64 : two64 = 18446744073709551616) by reflexivity.
  assert (Hread : Watcher.Get_Uint64 None cache (Watcher.key watcher) = Ok last).
  { unfold Watcher.Get_Uint64, Watcher.redis_Get, cache, Scenario.cursor_at.
    rewrite lookup_singleton_eq. apply parseUint_formatUint. lia. }
  assert (Hcur : Watcher.currentBlockNumber (Scenario.quiet_round (last + 1))
                 = Ok (last + 1)).
  { unfold Watcher.currentBlockNumber. cbn [Watcher.HeaderByNumber Scenario.quiet_round].
    rewrite wrap_u64_small; [reflexivity | lia]. }
  assert (Hlast : Watcher.lastCheckedBlockNumber watcher (Scenario.quiet_round (last + 1))
                    cache (last + 1) = (cache, Ok last)).
  { unfold Watcher.lastCheckedBlockNumber.
    cbn [Watcher.redisFault Scenario.quiet_round]. now rewrite Hread. }
  assert (Htarget : Watcher.target watcher (last + 1) last = last - 5).
  { rewrite target_spec. cbn [Watcher.maxBlockAdvance Watcher.confidenceInterval
                               watcher Watcher.NewWatcher].
    unfold add_u64, sub_u64. rewrite (wrap_u64_small (last + 1000)) by lia.
    rewrite Z.min_l by lia. rewrite wrap_u64_small; lia. }
  assert (Hout : out = Watcher.mkOutcome
                         (<[Watcher.key watcher := Watcher.formatUint (last - 5)]> cache)
                         (Some (last, last - 5)) [] Watcher.Completed).
  { unfold out, Watcher.watchLogShiftOuts. rewrite Hcur, Hlast.
    rewrite (proj2 (Z.leb_gt (last + 1) last)) by lia.
    rewrite Htarget. reflexivity. }
  rewrite Hout. cbn [Watcher.exit Watcher.fetched Watcher.cache_after].
  repeat split; try assumption; try lia.
  unfold Watcher.Get_Uint64, Watcher.redis_Get.
  rewrite lookup_insert_eq. apply parseUint_formatUint. lia.
Qed.

(** C3: whatever the iterator holds, the fetch goroutine delivers at most
    one event, and so a round hands at most one burn to the resolver. *)
Theorem round_handles_at_most_one_burn
  (watcher : Watcher.Watcher) (round : Watcher.Round) (cache : gmap string string) :
  (forall from to,
      (length (List.filter Watcher.no_error (Watcher.FetchBurnLogs round from to).1)
       <= 1)%nat)
  /\ (forall iter,
        List.filter Watcher.no_error (Watcher.fetch_goroutine iter)
        = (fun event => Watcher.mkBurnLogResult event None)
            <$> take 1 (Watcher.events iter))
  /\ (length (Watcher.submitted (Watcher.watchLogShiftOuts watcher round cache))
      <= 1)%nat.
Proof.
  split; [|split].
  - intros from to. apply FetchBurnLogs_delivers_at_most_one.
  - intros iter. rewrite fetch_goroutine_events.
    destruct (Watcher.events iter); reflexivity.
  - apply round_submitted_bound.
Qed.

(** The target as the code computes it: in a round that read head [head]
    and cursor [last] with [last < head], the block fetched up to, and
    stored when the round completes, is
    [min(head, last + maxBlockAdvance) - confidenceInterval] in [uint64]
    arithmetic; it is that integer, and at least [confidenceInterval] blocks
    behind the head, only where the sum does not overflow and the
    difference does not underflow.  [NewWatcher] sets the two constants to
    1000 and 6. *)
Theorem round_target_is_min_minus_confidence
  (watcher : Watcher.Watcher) (round : Watcher.Round)
  (cache cache' : gmap string string) (head last : Z) :
  Watcher.currentBlockNumber round = Ok head ->
  Watcher.lastCheckedBlockNumber watcher round cache head = (cache', Ok last) ->
  last < head ->
  let maxAdvance := Watcher.maxBlockAdvance watcher in
  let confidence := Watcher.confidenceInterval watcher in
  let out := Watcher.watchLogShiftOuts watcher round cache in
  let T := sub_u64 (Z.min head (add_u64 last maxAdvance)) confidence in
  Watcher.fetched out = Some (last, T)
  /\ (Watcher.exit out = Watcher.Completed ->
      Watcher.cache_after out !! Watcher.key watcher = Some (Watcher.formatUint T))
  /\ (0 <= maxAdvance -> last + maxAdvance < two64 ->
      0 <= confidence <= Z.min head (last + maxAdvance) ->
      T = Z.min head (last + maxAdvance) - confidence /\ T + confidence <= head)
  /\ (forall sel pk,
         Watcher.maxBlockAdvance (Watcher.NewWatcher sel pk) = 1000
         /\ Watcher.confidenceInterval (Watcher.NewWatcher sel pk) = 6).
Proof.
  intros Hcur Hlast Hlt maxAdvance confidence out T.
  pose proof (round_fetches_target watcher round cache cache' head last Hcur Hlast Hlt)
    as [Hfetched Hstored].
  rewrite target_spec in Hfetched, Hstored.
  split; [exact Hfetched|]. split; [exact Hstored|]. split; [|now intros].
  intros Hadv Hsum Hconf.
  pose proof (currentBlockNumber_range round head Hcur) as Hhead.
  pose proof (lastCheckedBlockNumber_range watcher round cache cache' head last Hlast)
    as Hrange.
  unfold T, add_u64, sub_u64.
  rewrite (wrap_u64_small (last + maxAdvance)) by lia.
  rewrite wrap_u64_small by lia. lia.
Qed.

(** C4, where the code departs from it: with the constants of
    [NewWatcher], a round that read head [head] and cursor [last] with
    [last < head < 6] does not fetch up to [min(head, last + 1000) - 6].
    The subtraction [cur -= confidenceInterval] wraps around in [uint64]:
    the round fetches up to, and on completion stores, [head - 6 + 2^64],
    a block beyond the head. *)
Theorem target_wraps_past_the_head
  (selector gpubkey : string) (round : Watcher.Round)
  (cache cache' : gmap string string) (head last : Z) :
  let watcher := Watcher.NewWatcher selector gpubkey in
  Watcher.currentBlockNumber round = Ok head ->
  Watcher.lastCheckedBlockNumber watcher round cache head = (cache', Ok last) ->
  last < head ->
  head < 6 ->
  let out := Watcher.watchLogShiftOuts watcher round cache in
  let T := head - 6 + two64 in
  Watcher.fetched out = Some (last, T)
  /\ (Watcher.exit out = Watcher.Completed ->
      Watcher.cache_after out !! Watcher.key watcher = Some (Watcher.formatUint T))
  /\ T <> Z.min head (last + 1000) - 6
  /\ head < T.
Proof.
  intros watcher Hcur Hlast Hlt Hsmall out T.
  pose proof (currentBlockNumber_range round head Hcur) as Hhead.
  pose proof (lastCheckedBlockNumber_range watcher round cache cache' head last Hlast)
    as Hrange.
  assert (Htwo : two64 = 18446744073709551616) by reflexivity.
  assert (Htarget : Watcher.target watcher head last = T).
  { rewrite target_spec. cbn [Watcher.maxBlockAdvance Watcher.confidenceInterval watcher
                                Watcher.NewWatcher].
    unfold add_u64. rewrite (wrap_u64_small (last + 1000)) by lia.
    rewrite Z.min_l by lia.
    unfold sub_u64, wrap_u64.
    replace (head - 6) with (T + (-1) * two64) by (unfold T; lia).
    rewrite Z_mod_plus_full. apply Z.mod_small. unfold T. lia. }
  destruct (round_fetches_target watcher round cache cache' head last Hcur Hlast Hlt)
    as [Hfetched Hstored].
  rewrite Htarget in Hfetched, Hstored.
  repeat split; [exact Hfetched | exact Hstored | unfold T; lia | unfold T; lia].
Qed.

(** Reading the cursor leaves it stored: the block returned is the one the
    key holds afterwards. *)
Lemma lastCheckedBlockNumber_read
      (watcher : Watcher.Watcher) (round : Watcher.Round)
      (cache cache' : gmap string string) (cur last : Z) :
  Watcher.lastCheckedBlockNumber watcher round cache cur = (cache', Ok last) ->
  exists s, cache' !! Watcher.key watcher = Some s /\ Watcher.parseUint s = Ok last.
Proof.
  unfold Watcher.lastCheckedBlockNumber, Watcher.Get_Uint64, Watcher.redis_Get.
  destruct (Watcher.redisFault round Watcher.GetCursor); [discriminate|].
  destruct (cache !! Watcher.key watcher) as [s|] eqn:Hkey.
  - destruct (Watcher.parseUint s) as [n|e] eqn:Hparse; cbv iota.
    + intros [= <- <-]. eauto.
    + apply parseUint_error in Hparse as [msg ->]. discriminate.
  - unfold Watcher.redis_Set. cbv iota.
    destruct (Watcher.redisFault round Watcher.InitCursor); [discriminate|].
    intros [= <- <-]. eexists. split; [apply lookup_insert_eq|].
    apply parseUint_formatUint, wrap_u64_range.
Qed.

(** A read of the cursor that fails has written nothing. *)
Lemma lastCheckedBlockNumber_error
      (watcher : Watcher.Watcher) (round : Watcher.Round)
      (cache cache' : gmap string string) (cur : Z) (e : error) :
  Watcher.lastCheckedBlockNumber watcher round cache cur = (cache', Err e) ->
  cache' = cache.
Proof.
  unfold Watcher.lastCheckedBlockNumber, Watcher.Get_Uint64, Watcher.redis_Get.
  destruct (Watcher.redisFault round Watcher.GetCursor); [now intros [= <- _]|].
  destruct (cache !! Watcher.key watcher) as [s|] eqn:Hkey.
  - destruct (Watcher.parseUint s) as [n|e'] eqn:Hparse; cbv iota; [discriminate|].
    apply parseUint_error in Hparse as [msg ->]. now intros [= <- _].
  - unfold Watcher.redis_Set. cbv iota.
    destruct (Watcher.redisFault round Watcher.InitCursor);
      [now intros [= <- _] | discriminate].
Qed.

(** A cursor that is stored is what the next read returns. *)
Lemma lastCheckedBlockNumber_parsed
      (watcher : Watcher.Watcher) (round : Watcher.Round)
      (cache : gmap string string) (cur last : Z) (s : string) :
  Watcher.redisFault round Watcher.GetCursor = None ->
  cache !! Watcher.key watcher = Some s ->
  Watcher.parseUint s = Ok last ->
  Watcher.lastCheckedBlockNumber watcher round cache cur = (cache, Ok last).
Proof.
  intros Hfault Hkey Hparse.
  unfold Watcher.lastCheckedBlockNumber, Watcher.Get_Uint64, Watcher.redis_Get.
  now rewrite Hfault, Hkey, Hparse.
Qed.

(** A round that does not reach its last line leaves under the cursor key
    what reading the cursor left there. *)
Lemma failed_round_cache
      (watcher : Watcher.Watcher) (round : Watcher.Round) (cache : gmap string string)
      (cur : Z) :
  (forall h, Watcher.hash_String h <> Watcher.key watcher) ->
  let out := Watcher.watchLogShiftOuts watcher round cache in
  Watcher.exit out <> Watcher.Completed ->
  Watcher.currentBlockNumber round = Ok cur ->
  Watcher.cache_after out !! Watcher.key watcher
  = (Watcher.lastCheckedBlockNumber watcher round cache cur).1 !! Watcher.key watcher.
Proof.
  intros Hhash out Hexit Hcur. revert Hexit. unfold out, Watcher.watchLogShiftOuts.
  rewrite Hcur.
  destruct (Watcher.lastCheckedBlockNumber watcher round cache cur)
    as [cache' [last|e]]; [|reflexivity].
  destruct (cur <=? last); [reflexivity|].
  destruct (Watcher.FetchBurnLogs round last _) as [c [e|]]; [reflexivity|].
  pose proof (range_logs_keeps_cursor watcher round c Hhash cache') as Hrange.
  destruct (Watcher.range_logs watcher round cache' c) as [[cache'' subs] [e|]];
    cbn [fst] in Hrange; [intros _; exact Hrange|].
  unfold Watcher.redis_Set.
  destruct (Watcher.redisFault round Watcher.SetCursor);
    [intros _; exact Hrange | intros Hexit; now destruct Hexit].
Qed.

(** A round that ends on an error reading the head or the cursor has
    written nothing at all. *)
Lemma failed_read_cache
      (watcher : Watcher.Watcher) (round : Watcher.Round) (cache : gmap string string)
      (e : error) :
  let out := Watcher.watchLogShiftOuts watcher round cache in
  Watcher.exit out = Watcher.HeadError e \/ Watcher.exit out = Watcher.CursorError e ->
  Watcher.cache_after out = cache.
Proof.
  cbv zeta. unfold Watcher.watchLogShiftOuts.
  destruct (Watcher.currentBlockNumber round) as [cur|e0]; [|reflexivity].
  destruct (Watcher.lastCheckedBlockNumber watcher round cache cur)
    as [cache' [last|e0]] eqn:Hlast.
  - destruct (cur <=? last); [intros [?|?]; discriminate|].
    destruct (Watcher.FetchBurnLogs round last _) as [c [e1|]];
      [intros [?|?]; discriminate|].
    destruct (Watcher.range_logs watcher round cache' c) as [[cache'' subs] [e1|]];
      [intros [?|?]; discriminate|].
    destruct (Watcher.redis_Set _ _ _ _) as [cache3 [e1|]]; intros [?|?]; discriminate.
  - intros _. cbn. now apply lastCheckedBlockNumber_error in Hlast.
Qed.

(** C5: a round that ends anywhere but at its last line (an error reading
    the head or the cursor, an error from the fetcher or on the event
    channel; also old blocks and a failed final write) leaves the persisted
    cursor as the round read it, provided no hash string is the cursor key
    ([burnToParams] writes its hash mappings into the same cache).  A cursor
    that was stored is unchanged; a round that failed reading the head or
    the cursor has written nothing; and whenever the round read the cursor
    [last], the key holds what that read left there: the next round reads
    [last] again and, with the head above it, fetches from [last] again. *)
Theorem failed_round_leaves_the_cursor_it_read
  (watcher : Watcher.Watcher) (round : Watcher.Round) (cache : gmap string string) :
  (forall h, Watcher.hash_String h <> Watcher.key watcher) ->
  let out := Watcher.watchLogShiftOuts watcher round cache in
  Watcher.exit out <> Watcher.Completed ->
  (forall s, cache !! Watcher.key watcher = Some s ->
             Watcher.cache_after out !! Watcher.key watcher = Some s)
  /\ (forall e, Watcher.exit out = Watcher.HeadError e
                \/ Watcher.exit out = Watcher.CursorError e ->
                Watcher.cache_after out = cache)
  /\ (forall head cache' last,
         Watcher.currentBlockNumber round = Ok head ->
         Watcher.lastCheckedBlockNumber watcher round cache head = (cache', Ok last) ->
         Watcher.cache_after out !! Watcher.key watcher = cache' !! Watcher.key watcher
         /\ forall round' head',
              Watcher.redisFault round' Watcher.GetCursor = None ->
              Watcher.currentBlockNumber round' = Ok head' ->
              Watcher.lastCheckedBlockNumber watcher round' (Watcher.cache_after out) head'
              = (Watcher.cache_after out, Ok last)
              /\ (last < head' ->
                  Watcher.fetched
                    (Watcher.watchLogShiftOuts watcher round' (Watcher.cache_after out))
                  = Some (last, Watcher.target watcher head' last))).
Proof.
  intros Hhash out Hexit. subst out. split; [|split].
  - intros s Hkey.
    destruct (Watcher.currentBlockNumber round) as [cur|e] eqn:Hcur.
    + rewrite (failed_round_cache watcher round cache cur Hhash Hexit Hcur).
      pose proof (lastCheckedBlockNumber_cache watcher round cache cur) as Hread.
      cbv zeta in Hread. rewrite Hkey in Hread. now rewrite Hread.
    + unfold Watcher.watchLogShiftOuts. now rewrite Hcur.
  - intros e. apply failed_read_cache.
  - intros head cache' last Hcur Hlast.
    pose proof (failed_round_cache watcher round cache head Hhash Hexit Hcur) as Hafter.
    cbv zeta in Hafter. rewrite Hlast in Hafter. cbn [fst] in Hafter.
    split; [exact Hafter|].
    intros round' head' Hfault Hcur'.
    destruct (lastCheckedBlockNumber_read watcher round cache cache' head last Hlast)
      as (s & Hkey & Hparse).
    rewrite <- Hafter in Hkey.
    pose proof (lastCheckedBlockNumber_parsed watcher round' _
                  head' last s Hfault Hkey Hparse) as Hnext.
    split; [exact Hnext|].
    intros Hlt.
    apply (round_fetches_target watcher round' _ _ head' last Hcur' Hnext Hlt).
Qed.

End WatcherClaims.

Lemma cursor_moves_back_witness :
  let watcher := Watcher.NewWatcher "BTC/fromEthereum" "gpubkey" in
  let cache := Scenario.cursor_at watcher 100 in
  let out := Watcher.watchLogShiftOuts watcher (Scenario.quiet_round (100 + 1)) cache in
  Watcher.Get_Uint64 None cache (Watcher.key watcher) = Ok 100
  /\ Watcher.exit out = Watcher.Completed
  /\ Watcher.fetched out = Some (100, 100 - 5)
  /\ Watcher.Get_Uint64 None (Watcher.cache_after out) (Watcher.key watcher)
     = Ok (100 - 5)
  /\ 100 - 5 < 100.
Proof.
  apply (cursor_moves_back_when_head_is_next_block "BTC/fromEthereum" "gpubkey" 100).
  - lia.
  - reflexivity.
Defined.

(** C2 at the failing input, evaluated: cursor 100, head 101, cursor 95. *)
Example cursor_100_head_101 :
  let out := Watcher.watchLogShiftOuts Scenario.btc_watcher (Scenario.quiet_round 101)
               (Scenario.cursor_at Scenario.btc_watcher 100) in
  Scenario.cursor_at Scenario.btc_watcher 100 !! Watcher.key Scenario.btc_watcher = Some "100"
  /\ Watcher.exit out = Watcher.Completed
  /\ Watcher.cache_after out !! Watcher.key Scenario.btc_watcher = Some "95".
Proof. repeat split; vm_compute; reflexivity. Qed.

(** C4 at the failing input, evaluated: cursor 2, head 3; [3 - 6] wraps
    around in [uint64] and the round stores a cursor beyond the head.  It is
    the unguarded subtraction of the round above. *)
Example cursor_2_head_3 :
  let out := Watcher.watchLogShiftOuts Scenario.btc_watcher (Scenario.quiet_round 3)
               (Scenario.cursor_at Scenario.btc_watcher 2) in
  Watcher.fetched out = Some (2, two64 - 3)
  /\ Watcher.cache_after out !! Watcher.key Scenario.btc_watcher
     = Some "18446744073709551613".
Proof. repeat split; vm_compute; reflexivity. Qed.

(** C3 at the failing input, evaluated: two burns in range, cursor 100,
    head 110.  Only the first burn reaches the resolver, the round completes
    and stores 104, so the second burn is never fetched again. *)
Example second_burn_is_lost :
  let out := Watcher.watchLogShiftOuts Scenario.btc_watcher (Scenario.busy_round 110)
               (Scenario.cursor_at Scenario.btc_watcher 100) in
  Watcher.FilterLogBurn (Scenario.busy_round 110) 100 104 = Ok Scenario.two_logs
  /\ Watcher.events Scenario.two_logs = [Scenario.burn1; Scenario.burn2]
  /\ (Watcher.FetchBurnLogs (Scenario.busy_round 110) 100 104).1
     = [ {| Watcher.Result := Scenario.burn1; Watcher.Error := None |} ]
  /\ (fun params => Watcher.Txid (Watcher.Input (Watcher.ParamsTx params)))
       <$> Watcher.submitted out = ["0xaa"]
  /\ Watcher.exit out = Watcher.Completed
  /\ Watcher.cache_after out !! Watcher.key Scenario.btc_watcher = Some "104".
Proof. repeat split; vm_compute; reflexivity. Qed.

Lemma round_target_witness :
  let watcher := Scenario.btc_watcher in
  let round := Scenario.busy_round 110 in
  let cache := Scenario.cursor_at watcher 100 in
  let out := Watcher.watchLogShiftOuts watcher round cache in
  let T := sub_u64 (Z.min 110 (add_u64 100 1000)) 6 in
  T = 104
  /\ Watcher.fetched out = Some (100, T)
  /\ (Watcher.exit out = Watcher.Completed ->
      Watcher.cache_after out !! Watcher.key watcher = Some (Watcher.formatUint T))
  /\ (0 <= 1000 -> 100 + 1000 < two64 -> 0 <= 6 <= Z.min 110 (100 + 1000) ->
      T = Z.min 110 (100 + 1000) - 6 /\ T + 6 <= 110)
  /\ (forall sel pk,
         Watcher.maxBlockAdvance (Watcher.NewWatcher sel pk) = 1000
         /\ Watcher.confidenceInterval (Watcher.NewWatcher sel pk) = 6).
Proof.
  split; [reflexivity|].
  apply (round_target_is_min_minus_confidence Scenario.btc_watcher (Scenario.busy_round 110)
           (Scenario.cursor_at Scenario.btc_watcher 100) (Scenario.cursor_at Scenario.btc_watcher 100)
           110 100).
  - reflexivity.
  - vm_compute. reflexivity.
  - lia.
Defined.

(** A first start on a fresh chain: no cursor is stored and the head is at
    block 1.  The cursor is initialised to 0, the target [1 - 6] wraps, the
    round completes and stores [2^64 - 5]; from then on every round finds
    the head at or below the cursor and returns at the old-blocks guard. *)
Example first_start_at_head_1 :
  let watcher := Scenario.btc_watcher in
  let out := Watcher.watchLogShiftOuts watcher (Scenario.quiet_round 1) ∅ in
  let next := Watcher.watchLogShiftOuts watcher (Scenario.quiet_round 1000000)
                (Watcher.cache_after out) in
  Watcher.fetched out = Some (0, two64 - 5)
  /\ Watcher.exit out = Watcher.Completed
  /\ Watcher.cache_after out !! Watcher.key watcher = Some "18446744073709551611"
  /\ Watcher.exit next = Watcher.OldBlocks.
Proof. repeat split; vm_compute; reflexivity. Qed.

Lemma target_wraps_witness :
  let watcher := Watcher.NewWatcher "BTC/fromEthereum" "gpubkey" in
  let out := Watcher.watchLogShiftOuts watcher (Scenario.quiet_round 3)
               (Scenario.cursor_at watcher 2) in
  let T := 3 - 6 + two64 in
  Watcher.fetched out = Some (2, T)
  /\ (Watcher.exit out = Watcher.Completed ->
      Watcher.cache_after out !! Watcher.key watcher = Some (Watcher.formatUint T))
  /\ T <> Z.min 3 (2 + 1000) - 6
  /\ 3 < T.
Proof.
  apply (target_wraps_past_the_head "BTC/fromEthereum" "gpubkey" (Scenario.quiet_round 3)
           (Scenario.cursor_at Scenario.btc_watcher 2)
           (Scenario.cursor_at Scenario.btc_watcher 2) 3 2).
  - reflexivity.
  - vm_compute. reflexivity.
  - lia.
  - lia.
Defined.

(** A first round that fails: no cursor is stored, the head is at 100 and
    the node refuses the log filter.  Reading the cursor initialised it to
    99; the round ends on the fetch error and 99 is what stays. *)
Example failed_first_round :
  let out := Watcher.watchLogShiftOuts Scenario.btc_watcher (Scenario.filter_down 100) ∅ in
  Watcher.lastCheckedBlockNumber Scenario.btc_watcher (Scenario.filter_down 100) ∅ 100
  = (Scenario.cursor_at Scenario.btc_watcher 99, Ok 99)
  /\ Watcher.fetched out = Some (99, 94)
  /\ Watcher.exit out = Watcher.FetchError (ErrOther "filter: connection reset")
  /\ Watcher.cache_after out !! Watcher.key Scenario.btc_watcher = Some "99".
Proof. repeat split; vm_compute; reflexivity. Qed.

Lemma failed_round_witness :
  let watcher := Scenario.btc_watcher in
  let cache := Scenario.cursor_at watcher 90 in
  let out := Watcher.watchLogShiftOuts watcher (Scenario.filter_down 100) cache in
  let next := Watcher.watchLogShiftOuts watcher (Scenario.quiet_round 100)
                (Watcher.cache_after out) in
  Watcher.cache_after out !! Watcher.key watcher = Some "90"
  /\ Watcher.fetched out = Some (90, 94)
  /\ Watcher.lastCheckedBlockNumber watcher (Scenario.quiet_round 100)
       (Watcher.cache_after out) 100
     = (Watcher.cache_after out, Ok 90)
  /\ Watcher.fetched next = Some (90, 94).
Proof.
  assert (Hhash : forall h, Watcher.hash_String h <> Watcher.key Scenario.btc_watcher)
    by (intros h; cbn; discriminate).
  assert (Hexit : Watcher.exit
                    (Watcher.watchLogShiftOuts Scenario.btc_watcher
                       (Scenario.filter_down 100)
                       (Scenario.cursor_at Scenario.btc_watcher 90))
                  <> Watcher.Completed)
    by (vm_compute; discriminate).
  destruct (failed_round_leaves_the_cursor_it_read Scenario.btc_watcher
              (Scenario.filter_down 100) (Scenario.cursor_at Scenario.btc_watcher 90)
              Hhash Hexit) as (Hstored & _ & Hread).
  destruct (Hread 100 (Scenario.cursor_at Scenario.btc_watcher 90) 90
              eq_refl eq_refl) as [_ Hnext].
  destruct (Hnext (Scenario.quiet_round 100) 100 eq_refl eq_refl) as [Hlast Hfetch].
  split; [apply Hstored; reflexivity|].
  split; [vm_compute; reflexivity|].
  split; [exact Hlast|].
  apply Hfetch. lia.
Defined.

(** ** The tx checker *)

Lemma find_row_hash (db : Resolver.DB) (hash : string) (row : Resolver.Row) :
  Resolver.find_row db hash = Some row -> Resolver.Hash (Resolver.row_tx row) = hash.
Proof.
  unfold Resolver.find_row. intros Hfind.
  apply find_some in Hfind as [_ Heq]. now apply String.eqb_eq in Heq.
Qed.

Lemma find_row_absent (db : Resolver.DB) (hash : string) :
  Resolver.find_row db hash = None -> ~ In hash (Resolver.hashes db).
Proof.
  unfold Resolver.find_row, Resolver.hashes. intros Hfind Hin.
  apply in_map_iff in Hin as (row & Hhash & Hin).
  pose proof (find_none _ _ Hfind row Hin) as Hne. cbn in Hne.
  rewrite Hhash, String.eqb_refl in Hne. discriminate.
Qed.

(** Rows are only ever appended, so the first row of a hash stays first. *)
Lemma find_row_app (db more : Resolver.DB) (hash : string) (row : Resolver.Row) :
  Resolver.find_row db hash = Some row ->
  Resolver.find_row (db ++ more)%list hash = Some row.
Proof.
  unfold Resolver.find_row. induction db as [|r db IH]; [discriminate|].
  cbn. destruct (String.eqb _ hash); [trivial | exact IH].
Qed.

Lemma find_row_new (db : Resolver.DB) (row : Resolver.Row) :
  Resolver.find_row db (Resolver.Hash (Resolver.row_tx row)) = None ->
  Resolver.find_row (db ++ [row])%list (Resolver.Hash (Resolver.row_tx row)) = Some row.
Proof.
  unfold Resolver.find_row. induction db as [|r db IH]; cbn.
  - now rewrite String.eqb_refl.
  - destruct (String.eqb _ _); [discriminate | exact IH].
Qed.

Lemma hashes_app (db more : Resolver.DB) :
  Resolver.hashes (db ++ more)%list = (Resolver.hashes db ++ Resolver.hashes more)%list.
Proof. unfold Resolver.hashes. apply fmap_app. Qed.

Lemma NoDup_hashes_new (db : Resolver.DB) (row : Resolver.Row) :
  Resolver.find_row db (Resolver.Hash (Resolver.row_tx row)) = None ->
  List.NoDup (Resolver.hashes db) ->
  List.NoDup (Resolver.hashes (db ++ [row])%list).
Proof.
  intros Hfind Hnodup. rewrite hashes_app. cbn.
  apply find_row_absent in Hfind.
  apply NoDup_ListNoDup, NoDup_app. rewrite NoDup_ListNoDup.
  split; [exact Hnodup|]. split.
  - intros h Hin Hin'. apply list_elem_of_In in Hin.
    apply list_elem_of_singleton in Hin'. now subst h.
  - apply NoDup_singleton.
Qed.

Section CheckerFacts.
Context `{Resolver.Transform}.

Lemma checkDuplicate_present
      (db : Resolver.DB) (round : Resolver.DBRound) (tx : Resolver.Tx) (gaas : string)
      (row : Resolver.Row) :
  Resolver.txFault round = None ->
  Resolver.find_row db (Resolver.Hash tx) = Some row ->
  Resolver.checkDuplicate db round tx gaas = (db, (Resolver.row_tx row, None)).
Proof.
  intros Hfault Hfind. unfold Resolver.checkDuplicate, Resolver.db_Tx.
  now rewrite Hfault, Hfind.
Qed.

Lemma checkDuplicate_absent
      (db : Resolver.DB) (round : Resolver.DBRound) (tx : Resolver.Tx) (gaas : string) :
  Resolver.txFault round = None ->
  Resolver.insertFault round = None ->
  Resolver.find_row db (Resolver.Hash tx) = None ->
  Resolver.checkDuplicate db round tx gaas
  = ((db ++ [Resolver.new_row round tx (negb (String.eqb gaas EmptyString))])%list, (tx, None)).
Proof.
  intros Hfault Hinsert Hfind.
  unfold Resolver.checkDuplicate, Resolver.db_Tx, Resolver.db_InsertTx.
  now rewrite Hfault, Hfind, Hinsert.
Qed.

(** Every call leaves the table as it was or appends one pending row whose
    hash was not there. *)
Lemma checkDuplicate_table
      (db : Resolver.DB) (round : Resolver.DBRound) (tx : Resolver.Tx) (gaas : string) :
  (Resolver.checkDuplicate db round tx gaas).1 = db
  \/ (Resolver.find_row db (Resolver.Hash tx) = None
      /\ (Resolver.checkDuplicate db round tx gaas).1
         = (db ++ [Resolver.new_row round tx (negb (String.eqb gaas EmptyString))])%list).
Proof.
  unfold Resolver.checkDuplicate, Resolver.db_Tx, Resolver.db_InsertTx.
  destruct (Resolver.txFault round); [now left|].
  destruct (Resolver.find_row db (Resolver.Hash tx)) eqn:Hfind; [now left|].
  destruct (Resolver.insertFault round); [now left | now right].
Qed.

Lemma serve_table
      (db db' : Resolver.DB) (round : Resolver.DBRound)
      (req : Resolver.RequestWithResponder) (reply : Resolver.Reply) :
  Resolver.serve db round req = Returns (db', reply) ->
  db' = db
  \/ exists tx,
      Resolver.find_row db (Resolver.Hash tx) = None
      /\ db' = (db ++ [Resolver.new_row round tx
                                         (negb (String.eqb (Resolver.Query_gaas req) EmptyString))])%list.
Proof.
  unfold Resolver.serve.
  destruct (Resolver.ReqParams req) as [params|]; [|discriminate].
  destruct (Resolver.verify params) as [tx|e]; [|intros [= <- _]; now left].
  pose proof (checkDuplicate_table db round tx (Resolver.Query_gaas req)) as Htable.
  destruct (Resolver.checkDuplicate db round tx (Resolver.Query_gaas req))
    as [db1 [tx1 [e|]]]; cbn [fst] in Htable; intros [= <- _];
    (destruct Htable as [-> | [Hfind ->]]; [now left | right; now exists tx]).
Qed.

Lemma serve_keeps_rows
      (db db' : Resolver.DB) (round : Resolver.DBRound)
      (req : Resolver.RequestWithResponder) (reply : Resolver.Reply) :
  Resolver.serve db round req = Returns (db', reply) ->
  (List.NoDup (Resolver.hashes db) -> List.NoDup (Resolver.hashes db'))
  /\ (forall hash row, Resolver.find_row db hash = Some row ->
                       Resolver.find_row db' hash = Some row).
Proof.
  intros Hserve. apply serve_table in Hserve as [-> | (tx & Hfind & ->)].
  - now split.
  - split.
    + now apply (NoDup_hashes_new db).
    + intros hash row. apply find_row_app.
Qed.

Lemma Run_keeps_rows (requests : list (Resolver.RequestWithResponder * Resolver.DBRound)) :
  forall (db db' : Resolver.DB) (replies : list Resolver.Reply),
    Resolver.Run db requests = Returns (db', replies) ->
    (List.NoDup (Resolver.hashes db) -> List.NoDup (Resolver.hashes db'))
    /\ (forall hash row, Resolver.find_row db hash = Some row ->
                         Resolver.find_row db' hash = Some row).
Proof.
  induction requests as [|[req round] rest IH]; intros db db' replies; cbn.
  - intros [= <- _]. now split.
  - destruct (Resolver.serve db round req) as [[db1 reply]|msg] eqn:Hserve;
      [|discriminate].
    destruct (Resolver.Run db1 rest) as [[db2 replies']|msg] eqn:Hrun; [|discriminate].
    intros [= <- _].
    apply serve_keeps_rows in Hserve as [Hnodup1 Hfind1].
    apply IH in Hrun as [Hnodup2 Hfind2]. split; auto.
Qed.

(** A submission that was answered with a record leaves that record as the
    first row of its hash. *)
Lemma serve_answer_is_stored
      (db db' : Resolver.DB) (round : Resolver.DBRound)
      (req : Resolver.RequestWithResponder) (params : Resolver.ParamsSubmitTx)
      (tx answer : Resolver.Tx) (id : Z) :
  Resolver.ReqParams req = Resolver.SubmitTxParams params ->
  Resolver.verify params = Ok tx ->
  Resolver.serve db round req
  = Returns (db', Resolver.NewResponse id {| Resolver.ResponseTx := answer |}) ->
  exists row,
    Resolver.find_row db' (Resolver.Hash tx) = Some row
    /\ Resolver.row_tx row = answer.
Proof.
  intros Hreq Hverify. unfold Resolver.serve. rewrite Hreq, Hverify.
  unfold Resolver.checkDuplicate, Resolver.db_Tx, Resolver.db_InsertTx.
  destruct (Resolver.txFault round); [discriminate|].
  destruct (Resolver.find_row db (Resolver.Hash tx)) as [row|] eqn:Hfind.
  - intros [= <- _ <-]. now exists row.
  - destruct (Resolver.insertFault round); [discriminate|].
    intros [= <- _ <-].
    set (row := Resolver.new_row round tx _).
    exists row. split; [|reflexivity].
    now apply (find_row_new db row).
Qed.

End CheckerFacts.

Section CheckerClaims.
Context `{Resolver.Transform}.

(** C1: a submission that passes [verify] with transaction [tx], while the
    store answers its queries.  If a row with the hash of [tx] is stored,
    the stored record is returned and the table is unchanged; if none is,
    one row holding [tx] in status pending is appended and [tx] is returned.
    Serving requests keeps the hashes of the table free of duplicates.
    Once a submission has been answered with a record, every later
    submission with the same hash is answered with that same record and
    adds no row, whatever was served in between. *)
Theorem checkDuplicate_returns_canonical_record
  (db : Resolver.DB) (round : Resolver.DBRound)
  (req : Resolver.RequestWithResponder) (params : Resolver.ParamsSubmitTx)
  (tx : Resolver.Tx) :
  Resolver.ReqParams req = Resolver.SubmitTxParams params ->
  Resolver.verify params = Ok tx ->
  Resolver.txFault round = None ->
  let gaas := Resolver.Query_gaas req in
  (forall row,
      Resolver.find_row db (Resolver.Hash tx) = Some row ->
      Resolver.checkDuplicate db round tx gaas = (db, (Resolver.row_tx row, None))
      /\ Resolver.serve db round req
         = Returns (db, Resolver.NewResponse (Resolver.ID req)
                          {| Resolver.ResponseTx := Resolver.row_tx row |}))
  /\ (Resolver.find_row db (Resolver.Hash tx) = None ->
      Resolver.insertFault round = None ->
      let row := Resolver.new_row round tx (negb (String.eqb gaas EmptyString)) in
      Resolver.row_status row = Resolver.Pending
      /\ Resolver.checkDuplicate db round tx gaas = ((db ++ [row])%list, (tx, None))
      /\ Resolver.serve db round req
         = Returns ((db ++ [row])%list,
                    Resolver.NewResponse (Resolver.ID req) {| Resolver.ResponseTx := tx |}))
  /\ (forall requests db' replies,
         List.NoDup (Resolver.hashes db) ->
         Resolver.Run db ((req, round) :: requests) = Returns (db', replies) ->
         List.NoDup (Resolver.hashes db'))
  /\ (forall db1 answer later db2 replies round' req' params' tx',
         Resolver.serve db round req
         = Returns (db1, Resolver.NewResponse (Resolver.ID req)
                           {| Resolver.ResponseTx := answer |}) ->
         Resolver.Run db1 later = Returns (db2, replies) ->
         Resolver.ReqParams req' = Resolver.SubmitTxParams params' ->
         Resolver.verify params' = Ok tx' ->
         Resolver.Hash tx' = Resolver.Hash tx ->
         Resolver.txFault round' = None ->
         Resolver.serve db2 round' req'
         = Returns (db2, Resolver.NewResponse (Resolver.ID req')
                           {| Resolver.ResponseTx := answer |})).
Proof.
  intros Hreq Hverify Hfault gaas. split; [|split; [|split]].
  - intros row Hfind.
    pose proof (checkDuplicate_present db round tx gaas row Hfault Hfind) as Hcheck.
    split; [exact Hcheck|].
    unfold Resolver.serve. rewrite Hreq, Hverify. fold gaas. now rewrite Hcheck.
  - intros Hfind Hinsert row.
    pose proof (checkDuplicate_absent db round tx gaas Hfault Hinsert Hfind) as Hcheck.
    split; [reflexivity|]. split; [exact Hcheck|].
    unfold Resolver.serve. rewrite Hreq, Hverify. fold gaas. now rewrite Hcheck.
  - intros requests db' replies Hnodup Hrun.
    now apply (Run_keeps_rows _ _ _ _ Hrun).
  - intros db1 answer later db2 replies round' req' params' tx'
           Hserve Hrun Hreq' Hverify' Hhash Hfault'.
    destruct (serve_answer_is_stored _ _ _ _ _ _ _ _ Hreq Hverify Hserve)
      as (row & Hfind & <-).
    apply (Run_keeps_rows _ _ _ _ Hrun) in Hfind.
    rewrite <- Hhash in Hfind.
    unfold Resolver.serve. rewrite Hreq', Hverify'.
    now rewrite (checkDuplicate_present db2 round' tx' _ row Hfault' Hfind).
Qed.

(** C7: a submission that fails [verify] is answered with the
    invalid-params error and the store is left as it was; a run of such
    submissions ends with the table it started from. *)
Theorem invalid_submission_writes_nothing
  (db : Resolver.DB) (round : Resolver.DBRound)
  (req : Resolver.RequestWithResponder) (params : Resolver.ParamsSubmitTx)
  (err : error) :
  Resolver.ReqParams req = Resolver.SubmitTxParams params ->
  Resolver.verify params = Err err ->
  Resolver.serve db round req
  = Returns (db, Resolver.RespondWithErr Resolver.ErrorCodeInvalidParams err)
  /\ Resolver.ErrorCodeInvalidParams = -32602
  /\ (forall requests,
         Forall (fun '(req, _) =>
                   exists params err,
                     Resolver.ReqParams req = Resolver.SubmitTxParams params
                     /\ Resolver.verify params = Err err) requests ->
         exists replies,
           Resolver.Run db requests = Returns (db, replies)
           /\ Forall (fun reply =>
                        exists err,
                          reply = Resolver.RespondWithErr
                                    Resolver.ErrorCodeInvalidParams err) replies).
Proof.
  intros Hreq Hverify. split; [|split; [reflexivity|]].
  - unfold Resolver.serve. now rewrite Hreq, Hverify.
  - intros requests Hall.
    induction Hall as [|[req' round'] rest (params' & err' & Hreq' & Hverify') _ IH].
    + exists []. split; [reflexivity | constructor].
    + destruct IH as (replies & Hrun & Hreplies).
      exists (Resolver.RespondWithErr Resolver.ErrorCodeInvalidParams err' :: replies).
      split.
      * cbn. unfold Resolver.serve at 1. now rewrite Hreq', Hverify', Hrun.
      * constructor; [now exists err' | exact Hreplies].
Qed.

End CheckerClaims.

Lemma checkDuplicate_witness :
  Resolver.serve [] (Scenario.healthy 1000) (Scenario.submit 1 Scenario.mint)
  = Returns ([Resolver.new_row (Scenario.healthy 1000) Scenario.mint_checked false],
             Resolver.NewResponse 1 {| Resolver.ResponseTx := Scenario.mint_checked |}).
Proof.
  refine (proj2 (proj2 (proj1 (proj2
            (checkDuplicate_returns_canonical_record
               [] (Scenario.healthy 1000) (Scenario.submit 1 Scenario.mint)
               {| Resolver.ParamsTx := Scenario.mint |} Scenario.mint_checked _ _ _)) _ _))).
  - reflexivity.
  - vm_compute. reflexivity.
  - reflexivity.
  - reflexivity.
  - reflexivity.
Defined.

(** C1 on a concrete run: the same transaction submitted twice, with
    another submission in between, is answered twice with the same record
    and stored once. *)
Example resubmission_is_deduplicated :
  Resolver.Run [] [ (Scenario.submit 1 Scenario.mint, Scenario.healthy 1000);
                    (Scenario.submit 2 Scenario.malformed, Scenario.healthy 1001);
                    (Scenario.submit 3 Scenario.mint, Scenario.healthy 1002) ]
  = Returns ([Resolver.new_row (Scenario.healthy 1000) Scenario.mint_checked false],
             [ Resolver.NewResponse 1 {| Resolver.ResponseTx := Scenario.mint_checked |};
               Resolver.RespondWithErr (-32602) (ErrOther "unknown contract address");
               Resolver.NewResponse 3 {| Resolver.ResponseTx := Scenario.mint_checked |} ]).
Proof. vm_compute. reflexivity. Qed.

Lemma invalid_submission_witness :
  Resolver.serve [Resolver.new_row (Scenario.healthy 1000) Scenario.mint_checked false]
                 (Scenario.healthy 1001) (Scenario.submit 2 Scenario.malformed)
  = Returns ([Resolver.new_row (Scenario.healthy 1000) Scenario.mint_checked false],
             Resolver.RespondWithErr Resolver.ErrorCodeInvalidParams
                                     (ErrOther "unknown contract address")).
Proof.
  refine (proj1 (invalid_submission_writes_nothing
                   [Resolver.new_row (Scenario.healthy 1000) Scenario.mint_checked false]
                   (Scenario.healthy 1001) (Scenario.submit 2 Scenario.malformed)
                   {| Resolver.ParamsTx := Scenario.malformed |}
                   (ErrOther "unknown contract address") _ _)).
  - reflexivity.
  - vm_compute. reflexivity.
Defined.

(** * Further properties of the code *)

(** ** The cache: reads, writes, deletes *)

Section CacheOperations.
Context {V : Type} `{Store.Json V}.

Lemma expiry_check_fresh (c : Store.cache) (now : Z) (key : string) (seen : Z) :
  Store.lastSeen c !! key = Some seen ->
  sub_i64 now seen <= Store.timeToLive c ->
  Store.expiry_check c now key = None.
Proof.
  intros Hseen Hfresh. unfold Store.expiry_check.
  destruct (0 <? Store.timeToLive c); [|reflexivity].
  rewrite Hseen.
  now rewrite (proj2 (Z.ltb_ge _ _) Hfresh).
Qed.

Lemma expiry_check_no_ttl (c : Store.cache) (now : Z) (key : string) :
  Store.timeToLive c <= 0 -> Store.expiry_check c now key = None.
Proof.
  intros Httl. unfold Store.expiry_check.
  now rewrite (proj2 (Z.ltb_ge _ _) Httl).
Qed.

Lemma Write_data (c : Store.cache) (t : Z) (key : string) (value : V) (val : bytes) :
  Store.Marshal value = Ok val ->
  Store.timeToLive (Store.Write c t key value).1 = Store.timeToLive c
  /\ Store.data (Store.Write c t key value).1 = <[key := val]> (Store.data c)
  /\ Store.lastSeen (Store.Write c t key value).1
     = if 0 <? Store.timeToLive c then <[key := t]> (Store.lastSeen c)
       else Store.lastSeen c.
Proof. intros Hval. unfold Store.Write. now rewrite Hval. Qed.

(** X1: a value written at time [t] is read back, as long as the key is not
    written or deleted again, at every time up to and including [t + TTL];
    with a TTL of zero or less, at every time. *)
Theorem Write_then_Read
  (c : Store.cache) (t : Z) (key : string) (value : V) (val : bytes)
  (later : list (Store.Update V)) (now : Z) :
  Store.Marshal value = Ok val ->
  Store.Unmarshal val = Ok value ->
  Forall (fun u => Store.updated_key u <> key) later ->
  Store.timeToLive c <= 0 \/ sub_i64 now t <= Store.timeToLive c ->
  Store.Read (Store.apply_updates (Store.Write c t key value).1 later) now key
  = Ok value.
Proof.
  intros Hval Hback Hlater Hfresh.
  destruct (Write_data c t key value val Hval) as (Httl1 & Hdata1 & Hseen1).
  destruct (apply_updates_other later key Hlater (Store.Write c t key value).1)
    as (Httl2 & Hdata2 & Hseen2).
  set (c' := Store.apply_updates _ later) in *.
  rewrite Httl1 in Httl2. rewrite Hdata1, lookup_insert_eq in Hdata2.
  assert (Hcheck : Store.expiry_check c' now key = None).
  { destruct (Z_lt_le_dec 0 (Store.timeToLive c)) as [Hpos | Hnone].
    - destruct Hfresh as [Hfresh | Hfresh]; [lia|].
      apply (expiry_check_fresh c' now key t); [|lia].
      rewrite Hseen2, Hseen1, (proj2 (Z.ltb_lt _ _) Hpos).
      apply lookup_insert_eq.
    - apply expiry_check_no_ttl. lia. }
  unfold Store.Read. now rewrite Hcheck, Hdata2.
Qed.

(** X2: after [Delete] a read of the key answers [ErrKeyNotFound], at any
    time and whatever the TTL, and reads of every other key answer what they
    answered before; [Delete] itself never fails. *)
Theorem Delete_then_Read (c : Store.cache) (key : string) (now : Z) :
  (Store.Delete c key).2 = None
  /\ Store.Read (V := V) (Store.Delete c key).1 now key = Err ErrKeyNotFound
  /\ (forall key', key' <> key ->
        Store.Read (V := V) (Store.Delete c key).1 now key'
        = Store.Read (V := V) c now key').
Proof.
  split; [reflexivity|]. split.
  - unfold Store.Read, Store.expiry_check, Store.Delete.
    cbn [fst Store.data Store.lastSeen Store.timeToLive].
    rewrite !lookup_delete_eq.
    now destruct (0 <? Store.timeToLive c).
  - intros key' Hne.
    unfold Store.Read, Store.expiry_check, Store.Delete.
    cbn [fst Store.data Store.lastSeen Store.timeToLive].
    now rewrite !lookup_delete_ne by congruence.
Qed.

(** X3: [Entries] counts keys: a successful [Write] adds one exactly when
    the key was not stored, [Delete] removes one exactly when it was. *)
Theorem Entries_after_Write_and_Delete
  (c : Store.cache) (t : Z) (key : string) (value : V) (val : bytes) :
  Store.Marshal value = Ok val ->
  Store.Entries (Store.Write c t key value).1
  = Store.Entries c + (if Store.data c !! key is Some _ then 0 else 1)
  /\ Store.Entries (Store.Delete c key).1
     = Store.Entries c - (if Store.data c !! key is Some _ then 1 else 0).
Proof.
  intros Hval. destruct (Write_data c t key value val Hval) as (_ & Hdata & _).
  unfold Store.Entries. rewrite Hdata. cbn [Store.Delete fst Store.data].
  destruct (Store.data c !! key) as [old|] eqn:Hkey; split.
  - rewrite map_size_insert_Some by eauto. lia.
  - rewrite map_size_delete_Some by eauto.
    pose proof (Entries_counts c key old Hkey) as Hpos.
    unfold Store.Entries in Hpos. lia.
  - rewrite map_size_insert_None by exact Hkey. lia.
  - rewrite delete_id by exact Hkey. lia.
Qed.

End CacheOperations.

(** ** The cache: timestamps and iteration *)

Section CacheInvariant.
Context {V : Type} `{Store.Json V}.

Lemma apply_update_timestamps (c : Store.cache) (u : Store.Update V) :
  (0 < Store.timeToLive c ->
   forall key, is_Some (Store.lastSeen c !! key) <-> is_Some (Store.data c !! key)) ->
  (Store.timeToLive c <= 0 -> Store.lastSeen c = ∅) ->
  Store.timeToLive (Store.apply_update c u) = Store.timeToLive c
  /\ (0 < Store.timeToLive c ->
      forall key, is_Some (Store.lastSeen (Store.apply_update c u) !! key)
                  <-> is_Some (Store.data (Store.apply_update c u) !! key))
  /\ (Store.timeToLive c <= 0 -> Store.lastSeen (Store.apply_update c u) = ∅).
Proof.
  intros Hpos Hnone. destruct u as [t k value | k]; cbn [Store.apply_update].
  - unfold Store.Write. destruct (Store.Marshal value) as [val|e]; cbn; [|auto].
    split; [reflexivity|]. split.
    + intros Httl key. rewrite (proj2 (Z.ltb_lt _ _) Httl).
      destruct (decide (k = key)) as [->|Hne].
      * rewrite !lookup_insert_eq. split; eauto.
      * rewrite !lookup_insert_ne by exact Hne. now apply Hpos.
    + intros Httl. rewrite (proj2 (Z.ltb_ge _ _) Httl). now apply Hnone.
  - cbn. split; [reflexivity|]. split.
    + intros Httl key. destruct (decide (k = key)) as [->|Hne].
      * rewrite !lookup_delete_eq. split; intros [x Hx]; discriminate.
      * rewrite !lookup_delete_ne by exact Hne. now apply Hpos.
    + intros Httl. rewrite (Hnone Httl). apply delete_empty.
Qed.

(** X4: in every cache built from [NewCache] by writes and deletes, the
    timestamps follow the data: with a positive TTL a key has a timestamp
    exactly when it has a value, otherwise no timestamp is kept at all.  So
    a key that is not stored always reads as [ErrKeyNotFound], never as
    [ErrDataExpired]. *)
Theorem timestamps_follow_data (timeToLive : Z) (history : list (Store.Update V)) :
  let c := Store.apply_updates (Store.NewCache timeToLive) history in
  Store.timeToLive c = timeToLive
  /\ (0 < timeToLive ->
      forall key, is_Some (Store.lastSeen c !! key) <-> is_Some (Store.data c !! key))
  /\ (timeToLive <= 0 -> Store.lastSeen c = ∅)
  /\ (forall now key,
         Store.data c !! key = None ->
         Store.Read (V := V) c now key = Err ErrKeyNotFound).
Proof.
  cbv zeta.
  assert (Hinv : forall c,
             (0 < Store.timeToLive c ->
              forall key, is_Some (Store.lastSeen c !! key)
                          <-> is_Some (Store.data c !! key)) ->
             (Store.timeToLive c <= 0 -> Store.lastSeen c = ∅) ->
             Store.timeToLive (Store.apply_updates c history) = Store.timeToLive c
             /\ (0 < Store.timeToLive c ->
                 forall key,
                   is_Some (Store.lastSeen (Store.apply_updates c history) !! key)
                   <-> is_Some (Store.data (Store.apply_updates c history) !! key))
             /\ (Store.timeToLive c <= 0 ->
                 Store.lastSeen (Store.apply_updates c history) = ∅)).
  { unfold Store.apply_updates.
    induction history as [|u us IH]; intros c Hpos Hnone; cbn; [auto|].
    destruct (apply_update_timestamps c u Hpos Hnone) as (Httl & Hpos' & Hnone').
    destruct (IH (Store.apply_update c u)) as (Httl2 & Hpos2 & Hnone2).
    - rewrite Httl. exact Hpos'.
    - rewrite Httl. exact Hnone'.
    - rewrite Httl in Httl2, Hpos2, Hnone2. auto. }
  destruct (Hinv (Store.NewCache timeToLive)) as (Httl & Hpos & Hnone).
  { intros _ key. cbn. rewrite !lookup_empty. split; intros [x Hx]; discriminate. }
  { reflexivity. }
  cbn [Store.NewCache Store.timeToLive] in Httl, Hpos, Hnone.
  split; [exact Httl|]. split; [exact Hpos|]. split; [exact Hnone|].
  intros now key Hkey. unfold Store.Read, Store.expiry_check.
  rewrite Httl, Hkey.
  destruct (0 <? timeToLive) eqn:E; [|reflexivity].
  apply Z.ltb_lt in E.
  destruct (Store.lastSeen _ !! key) as [seen|] eqn:Hseen; [|reflexivity].
  assert (Hsome : is_Some (Store.data
                    (Store.apply_updates (Store.NewCache timeToLive) history) !! key)).
  { apply (Hpos E). rewrite Hseen. eauto. }
  rewrite Hkey in Hsome. destruct Hsome as [x Hx]. discriminate.
Qed.

Lemma wrap_i64_small (z : Z) : - 2 ^ 63 <= z < 2 ^ 63 -> wrap_i64 z = z.
Proof.
  intros Hz. unfold wrap_i64, two64.
  rewrite Z.mod_small; lia.
Qed.

Lemma Nexts_state (c : Store.cache) (n : nat) :
  Z.of_nat n <= 2 ^ 63 ->
  Store.Nexts n (Store.Iterator c)
  = {| Store.index := Z.of_nat n - 1;
       Store.keys := (map_to_list (Store.data c)).*1;
       Store.values := (map_to_list (Store.data c)).*2 |}.
Proof.
  unfold Store.Nexts. induction n as [|n IH]; intros Hn; [reflexivity|].
  rewrite Nat.iter_succ, IH by lia.
  unfold Store.Next. cbn [fst Store.index Store.keys Store.values].
  unfold add_i64. rewrite wrap_i64_small by lia.
  f_equal. lia.
Qed.

Lemma slice_index_lookup {A : Type} (s : list A) (n : nat) (x : A) :
  s !! n = Some x -> slice_index s (Z.of_nat n) = Returns x.
Proof.
  intros Hx. unfold slice_index, len.
  pose proof (lookup_lt_Some _ _ _ Hx) as Hlt.
  rewrite (proj2 (Z.leb_le 0 (Z.of_nat n))) by lia.
  rewrite (proj2 (Z.ltb_lt (Z.of_nat n) (Z.of_nat (length s)))) by lia.
  cbn. now rewrite Nat2Z.id, Hx.
Qed.

(** X5: the iterator walks the entries of the cache, each key once: the
    [i+1]-th [Next] answers [true] and [KV] then yields the [i]-th entry (or
    the decoding error of its value) while there are entries left; from
    then on [Next] answers [false] and [KV] answers [ErrNoMoreItems]. *)
Theorem Iterator_visits_every_entry (c : Store.cache) (i : nat) :
  Z.of_nat i < 2 ^ 63 ->
  let entries := map_to_list (Store.data c) in
  let step := Store.Next (Store.Nexts i (Store.Iterator c)) in
  len entries = Store.Entries c
  /\ List.NoDup entries.*1
  /\ (forall key val, In (key, val) entries <-> Store.data c !! key = Some val)
  /\ match entries !! i with
     | Some (key, val) =>
         step.2 = true
         /\ Store.KV (V := V) step.1
            = match Store.Unmarshal val with
              | Ok v => Returns (Ok (key, v))
              | Err e => Returns (Err e)
              end
     | None =>
         step.2 = false
         /\ Store.KV (V := V) step.1 = Returns (Err ErrNoMoreItems)
     end.
Proof.
  intros Hi entries step.
  split; [unfold len, Store.Entries, entries; now rewrite length_map_to_list|].
  split; [apply NoDup_ListNoDup, NoDup_fst_map_to_list|].
  split.
  { intros key val. rewrite <- list_elem_of_In. apply elem_of_map_to_list. }
  unfold step. rewrite Nexts_state by lia.
  unfold Store.Next, Store.KV. cbn [fst snd Store.index Store.keys Store.values].
  unfold add_i64. rewrite wrap_i64_small by lia.
  replace (Z.of_nat i - 1 + 1) with (Z.of_nat i) by lia.
  fold entries. unfold len. rewrite !length_fmap.
  destruct (entries !! i) as [[key val]|] eqn:Hentry.
  - pose proof (lookup_lt_Some _ _ _ Hentry) as Hlt.
    rewrite (proj2 (Z.ltb_lt _ _)) by lia.
    rewrite (proj2 (Z.leb_gt _ _)) by lia.
    split; [reflexivity|].
    rewrite (slice_index_lookup entries.*2 i val)
      by (rewrite list_lookup_fmap, Hentry; reflexivity).
    rewrite (slice_index_lookup entries.*1 i key)
      by (rewrite list_lookup_fmap, Hentry; reflexivity).
    reflexivity.
  - apply lookup_ge_None in Hentry.
    rewrite (proj2 (Z.ltb_ge _ _)) by lia.
    rewrite (proj2 (Z.leb_le _ _)) by lia.
    now split.
Qed.

End CacheInvariant.

(** ** The watcher: address codecs *)

(** X6: [AddressEncodeDecoder] returns a codec exactly for Bitcoin,
    BitcoinCash and Zcash, on every network.  DigiByte and Dogecoin are
    listed in its first case but panic inside [NetParams]; every other chain
    panics in the default case.  Devnet and testnet get the same codec. *)
Theorem AddressEncodeDecoder_supported_chains
  (chain : Watcher.Chain) (network : Watcher.Network) :
  ((exists codec, Watcher.AddressEncodeDecoder chain network = Returns codec)
   <-> chain = Watcher.Bitcoin \/ chain = Watcher.BitcoinCash \/ chain = Watcher.Zcash)
  /\ Watcher.AddressEncodeDecoder Watcher.DigiByte network
     = Panics "cannot get network params: unknown chain"
  /\ Watcher.AddressEncodeDecoder Watcher.Dogecoin network
     = Panics "cannot get network params: unknown chain"
  /\ Watcher.AddressEncodeDecoder chain Watcher.NetworkDevnet
     = Watcher.AddressEncodeDecoder chain Watcher.NetworkTestnet.
Proof.
  split; [|split; [reflexivity | split; [reflexivity|]]].
  - split.
    + intros [codec Hcodec]. destruct chain; cbn in Hcodec; try discriminate; auto.
    + intros [-> | [-> | ->]]; destruct network; cbn; eauto.
  - destruct chain; reflexivity.
Qed.

(** ** The watcher: reading and storing the cursor *)

Section WatcherCursor.
Context `{Watcher.Libs}.

Lemma Get_Uint64_stored (cache : gmap string string) (key : string) (n : Z) :
  0 <= n < two64 ->
  cache !! key = Some (Watcher.formatUint n) ->
  Watcher.Get_Uint64 None cache key = Ok n.
Proof.
  intros Hn Hkey. unfold Watcher.Get_Uint64, Watcher.redis_Get.
  rewrite Hkey. now apply parseUint_formatUint.
Qed.

Lemma lastCheckedBlockNumber_stored
      (watcher : Watcher.Watcher) (round : Watcher.Round)
      (cache : gmap string string) (cur n : Z) :
  0 <= n < two64 ->
  Watcher.redisFault round Watcher.GetCursor = None ->
  cache !! Watcher.key watcher = Some (Watcher.formatUint n) ->
  Watcher.lastCheckedBlockNumber watcher round cache cur = (cache, Ok n).
Proof.
  intros Hn Hfault Hkey. unfold Watcher.lastCheckedBlockNumber.
  now rewrite Hfault, (Get_Uint64_stored cache _ n Hn Hkey).
Qed.

(** X7: when no cursor is stored, reading it stores the head minus one
    (wrapping at zero) and returns it; every later read returns that same
    block, whatever the head is by then, and writes nothing. *)
Theorem cursor_is_initialised_once
  (watcher : Watcher.Watcher) (round round' : Watcher.Round)
  (cache : gmap string string) (head head' : Z) :
  cache !! Watcher.key watcher = None ->
  Watcher.redisFault round Watcher.GetCursor = None ->
  Watcher.redisFault round Watcher.InitCursor = None ->
  Watcher.redisFault round' Watcher.GetCursor = None ->
  let first := sub_u64 head 1 in
  let cache' := <[Watcher.key watcher := Watcher.formatUint first]> cache in
  Watcher.lastCheckedBlockNumber watcher round cache head = (cache', Ok first)
  /\ Watcher.lastCheckedBlockNumber watcher round' cache' head' = (cache', Ok first).
Proof.
  intros Hkey Hget Hinit Hget' first cache'. split.
  - unfold Watcher.lastCheckedBlockNumber, Watcher.Get_Uint64, Watcher.redis_Get,
      Watcher.redis_Set.
    now rewrite Hget, Hkey, Hinit.
  - apply lastCheckedBlockNumber_stored; [apply wrap_u64_range | exact Hget'|].
    apply lookup_insert_eq.
Qed.

Lemma target_range (watcher : Watcher.Watcher) (cur last : Z) :
  0 <= Watcher.target watcher cur last < two64.
Proof. rewrite target_spec. apply wrap_u64_range. Qed.

(** X8: the cursor a completed round stores is the block the next round
    reads as its last checked block: the round fetched up to [T] and the
    next read returns [T] without touching the cache. *)
Theorem completed_round_cursor_is_read_back
  (watcher : Watcher.Watcher) (round round' : Watcher.Round)
  (cache : gmap string string) (head' : Z) :
  let out := Watcher.watchLogShiftOuts watcher round cache in
  Watcher.exit out = Watcher.Completed ->
  Watcher.redisFault round' Watcher.GetCursor = None ->
  exists last T,
    Watcher.fetched out = Some (last, T)
    /\ Watcher.lastCheckedBlockNumber watcher round' (Watcher.cache_after out) head'
       = (Watcher.cache_after out, Ok T).
Proof.
  intros out Hexit Hget. revert Hexit. unfold out, Watcher.watchLogShiftOuts.
  destruct (Watcher.currentBlockNumber round) as [cur|e]; [|discriminate].
  destruct (Watcher.lastCheckedBlockNumber watcher round cache cur)
    as [cache1 [last|e]]; [|discriminate].
  destruct (cur <=? last); [discriminate|].
  destruct (Watcher.FetchBurnLogs round last _) as [c [e|]]; [discriminate|].
  destruct (Watcher.range_logs watcher round cache1 c) as [[cache2 subs] [e|]];
    [discriminate|].
  unfold Watcher.redis_Set.
  destruct (Watcher.redisFault round Watcher.SetCursor); [discriminate|].
  intros _. exists last, (Watcher.target watcher cur last).
  cbn [Watcher.fetched Watcher.cache_after]. split; [reflexivity|].
  apply lastCheckedBlockNumber_stored; [apply target_range | exact Hget|].
  apply lookup_insert_eq.
Qed.

(** X9: with the head at or below the stored cursor (a rewound or resyncing
    node) the round fetches nothing, submits nothing and leaves the cache
    exactly as it was. *)
Theorem old_head_round_does_nothing
  (watcher : Watcher.Watcher) (round : Watcher.Round)
  (cache : gmap string string) (head last : Z) :
  0 <= last < two64 ->
  Watcher.currentBlockNumber round = Ok head ->
  Watcher.redisFault round Watcher.GetCursor = None ->
  cache !! Watcher.key watcher = Some (Watcher.formatUint last) ->
  head <= last ->
  Watcher.watchLogShiftOuts watcher round cache
  = Watcher.mkOutcome cache None [] Watcher.OldBlocks.
Proof.
  intros Hlast Hcur Hget Hkey Hle. unfold Watcher.watchLogShiftOuts.
  rewrite Hcur, (lastCheckedBlockNumber_stored watcher round cache head last Hlast Hget Hkey).
  now rewrite (proj2 (Z.leb_le head last) Hle).
Qed.

(** X10: once the cursor stands at [head - 6] and the head does not move,
    every further round of a default watcher calls the fetcher on
    [(head - 6, head - 6)] again and, when it completes, stores the same
    cursor: it never reaches the old-blocks exit. *)
Theorem caught_up_round_refetches_last_block
  (sel pk : string) (round : Watcher.Round) (cache : gmap string string) (head : Z) :
  6 <= head ->
  head + 994 < two64 ->
  Watcher.HeaderByNumber round = Ok head ->
  Watcher.redisFault round Watcher.GetCursor = None ->
  let watcher := Watcher.NewWatcher sel pk in
  cache !! Watcher.key watcher = Some (Watcher.formatUint (head - 6)) ->
  let out := Watcher.watchLogShiftOuts watcher round cache in
  Watcher.fetched out = Some (head - 6, head - 6)
  /\ Watcher.exit out <> Watcher.OldBlocks
  /\ (Watcher.exit out = Watcher.Completed ->
      Watcher.cache_after out !! Watcher.key watcher = cache !! Watcher.key watcher).
Proof.
  intros Hlo Hhi Hhead Hget watcher Hkey out.
  assert (Hu64 : two64 = 18446744073709551616) by reflexivity.
  assert (Hcur : Watcher.currentBlockNumber round = Ok head).
  { unfold Watcher.currentBlockNumber. rewrite Hhead.
    rewrite wrap_u64_small; [reflexivity | lia]. }
  assert (Hlast : Watcher.lastCheckedBlockNumber watcher round cache head
                  = (cache, Ok (head - 6))).
  { apply lastCheckedBlockNumber_stored; [lia | exact Hget | exact Hkey]. }
  assert (Htarget : Watcher.target watcher head (head - 6) = head - 6).
  { rewrite target_spec.
    cbn [Watcher.maxBlockAdvance Watcher.confidenceInterval watcher Watcher.NewWatcher].
    unfold add_u64, sub_u64. rewrite (wrap_u64_small (head - 6 + 1000)) by lia.
    rewrite Z.min_l by lia. rewrite wrap_u64_small; lia. }
  destruct (round_fetches_target watcher round cache cache head (head - 6) Hcur Hlast)
    as [Hfetched Hstored]; [lia|].
  rewrite Htarget in Hfetched, Hstored. fold out in Hfetched, Hstored.
  split; [exact Hfetched|]. split.
  - intros Hold. revert Hfetched. unfold out, Watcher.watchLogShiftOuts in *.
    rewrite Hcur, Hlast in *.
    destruct (head <=? head - 6) eqn:E; [apply Z.leb_le in E; lia|].
    revert Hold.
    destruct (Watcher.FetchBurnLogs round _ _) as [c [e|]]; [discriminate|].
    destruct (Watcher.range_logs watcher round cache c) as [[cache2 subs] [e|]];
      [discriminate|].
    destruct (Watcher.redis_Set _ _ _ _) as [cache3 [e|]]; discriminate.
  - intros Hdone. rewrite (Hstored Hdone). now rewrite Hkey.
Qed.

End WatcherCursor.

(** ** The watcher: from burns to submissions *)

Section WatcherBurns.
Context `{Watcher.Libs}.

Lemma burnToParams_cache
  (watcher : Watcher.Watcher) (round : Watcher.Round) (cache : gmap string string)
  (txid : string) (amount : Z) (to : string) (nonce : Z) (pk : string) :
  let r := Watcher.burnToParams watcher round cache txid amount to nonce pk in
  let v0 := Watcher.hash_String (Watcher.v0_BurnTxHash (Watcher.selector watcher) nonce) in
  let ref := Watcher.selector watcher ++ "_" ++ Watcher.formatUint nonce in
  match r.2 with
  | Err _ => r.1 = cache
  | Ok params =>
      (forall k, k <> v0 -> k <> ref -> r.1 !! k = cache !! k)
      /\ (Watcher.redisFault round (Watcher.SetMapping ref) = None ->
          r.1 !! ref = Some v0)
      /\ (Watcher.redisFault round (Watcher.SetMapping v0) = None ->
          v0 <> ref ->
          r.1 !! v0
          = Some (Watcher.hash_String (Watcher.Hash (Watcher.ParamsTx params))))
  end.
Proof.
  cbv zeta. unfold Watcher.burnToParams.
  destruct (Watcher.burn_recipient watcher to) as [[version to']|e]; [|reflexivity].
  destruct (Watcher.bindings_DecodeAddress _ to') as [decoded|e]; [|reflexivity].
  destruct (Watcher.pack_Encode _) as [e|]; [reflexivity|].
  destruct (Watcher.NewTxHash _ _ _) as [hash|e]; [|reflexivity].
  cbn [fst snd Watcher.ParamsTx Watcher.Hash]. split; [|split].
  - intros k Hv0 Href. rewrite !redis_Set_other by congruence. reflexivity.
  - intros Hfault. rewrite Hfault. cbn. apply lookup_insert_eq.
  - intros Hfault Hne. rewrite redis_Set_other by congruence.
    rewrite Hfault. cbn. apply lookup_insert_eq.
Qed.

(** X11: a burn whose params cannot be built leaves the cache untouched.
    One whose params are built touches two keys only: the selector-and-nonce
    key then holds the v0 hash, and the v0 hash key holds the hash of the
    transaction (each provided Redis took the write, and the second
    provided the two keys differ). *)
Theorem burnToParams_stores_two_mappings
  (watcher : Watcher.Watcher) (round : Watcher.Round) (cache : gmap string string)
  (txid : string) (amount : Z) (to : string) (nonce : Z) (pk : string) :
  let r := Watcher.burnToParams watcher round cache txid amount to nonce pk in
  let v0 := Watcher.hash_String (Watcher.v0_BurnTxHash (Watcher.selector watcher) nonce) in
  let ref := Watcher.selector watcher ++ "_" ++ Watcher.formatUint nonce in
  match r.2 with
  | Err _ => r.1 = cache
  | Ok params =>
      (forall k, k <> v0 -> k <> ref -> r.1 !! k = cache !! k)
      /\ (Watcher.redisFault round (Watcher.SetMapping ref) = None ->
          r.1 !! ref = Some v0)
      /\ (Watcher.redisFault round (Watcher.SetMapping v0) = None ->
          v0 <> ref ->
          r.1 !! v0
          = Some (Watcher.hash_String (Watcher.Hash (Watcher.ParamsTx params))))
  end.
Proof. apply burnToParams_cache. Qed.

(** X12: the transaction built from a burn carries the watcher's selector,
    output index 0, an empty payload and the given amount, nonce and key; its
    hash is the hash of its own version, selector and input.  It is tagged
    version 0 exactly when the asset is BTC, BCH or ZEC and the recipient
    bytes did not decode as an address; the recipient is then their base58
    encoding, and otherwise the bytes themselves. *)
Theorem burnToParams_builds_transaction
  (watcher : Watcher.Watcher) (round : Watcher.Round) (cache cache' : gmap string string)
  (txid : string) (amount : Z) (to : string) (nonce : Z) (pk : string)
  (params : Watcher.ParamsSubmitTx) :
  Watcher.burnToParams watcher round cache txid amount to nonce pk
  = (cache', Ok params) ->
  let tx := Watcher.ParamsTx params in
  let input := Watcher.Input tx in
  let sel := Watcher.selector watcher in
  Watcher.Selector tx = sel
  /\ Watcher.NewTxHash (Watcher.TxVersion tx) sel input = Ok (Watcher.Hash tx)
  /\ (Watcher.Txid input, Watcher.Txindex input, Watcher.InAmount input,
      Watcher.Payload input, Watcher.Nonce input, Watcher.Gpubkey input)
     = (txid, 0, amount, EmptyString, nonce, pk)
  /\ (Watcher.TxVersion tx = Watcher.Version0
      <-> Watcher.isUTXOAsset sel = true /\ Watcher.DecodeAddress sel to <> None)
  /\ Watcher.InTo input
     = match Watcher.TxVersion tx with
       | Watcher.Version0 => Watcher.base58_Encode to
       | Watcher.Version1 => to
       end.
Proof.
  unfold Watcher.burnToParams.
  destruct (Watcher.burn_recipient watcher to) as [[version to']|e] eqn:Hrecipient;
    [|discriminate].
  destruct (Watcher.bindings_DecodeAddress _ to') as [decoded|e]; [|discriminate].
  destruct (Watcher.pack_Encode _) as [e|]; [discriminate|].
  destruct (Watcher.NewTxHash _ _ _) as [hash|e] eqn:Hhash; [|discriminate].
  intros [= _ <-]. cbv zeta.
  cbn [Watcher.ParamsTx Watcher.Input Watcher.Selector Watcher.TxVersion Watcher.Hash
       Watcher.Txid Watcher.Txindex Watcher.InAmount Watcher.Payload Watcher.Nonce
       Watcher.Gpubkey Watcher.InTo].
  split; [reflexivity|]. split; [exact Hhash|]. split; [reflexivity|].
  unfold Watcher.burn_recipient in Hrecipient.
  destruct (Watcher.isUTXOAsset (Watcher.selector watcher)).
  - destruct (Watcher.DecodeAddress (Watcher.selector watcher) to) as [e|].
    + destruct (Watcher.DecodeAddress _ (Watcher.base58_Encode to)); [discriminate|].
      injection Hrecipient as <- <-. split; [|reflexivity].
      split; [intros _; split; [reflexivity | discriminate] | reflexivity].
    + injection Hrecipient as <- <-. split; [|reflexivity].
      split; [discriminate | intros [_ Hne]; now destruct Hne].
  - injection Hrecipient as <- <-. split; [|reflexivity].
    split; [discriminate | intros [Hf _]; discriminate].
Qed.

Lemma burnToParams_result
      (watcher : Watcher.Watcher) (round round' : Watcher.Round)
      (cache cache' : gmap string string)
      (txid : string) (amount : Z) (to : string) (nonce : Z) (pk : string) :
  (Watcher.burnToParams watcher round cache txid amount to nonce pk).2
  = (Watcher.burnToParams watcher round' cache' txid amount to nonce pk).2.
Proof.
  unfold Watcher.burnToParams.
  destruct (Watcher.burn_recipient watcher to) as [[version to']|e]; [|reflexivity].
  destruct (Watcher.bindings_DecodeAddress _ to') as [decoded|e]; [|reflexivity].
  destruct (Watcher.pack_Encode _) as [e|]; [reflexivity|].
  destruct (Watcher.NewTxHash _ _ _) as [hash|e]; reflexivity.
Qed.

(** X13: which burns of a batch are handed to the resolver, in which
    order, and whether the batch ends on an error, is decided by the channel
    contents alone: the resolver's answers, Redis failures and the cache
    contents change none of it. *)
Theorem submissions_depend_on_channel_only
  (watcher : Watcher.Watcher) (round round' : Watcher.Round)
  (c : list Watcher.BurnLogResult) (cache cache' : gmap string string) :
  (Watcher.range_logs watcher round cache c).1.2
  = (Watcher.range_logs watcher round' cache' c).1.2
  /\ (Watcher.range_logs watcher round cache c).2
     = (Watcher.range_logs watcher round' cache' c).2.
Proof.
  revert cache cache'. induction c as [|res rest IH]; intros cache cache'; [now split|].
  cbn [Watcher.range_logs].
  destruct (Watcher.Error res); [now split|].
  pose proof (burnToParams_result watcher round round' cache cache'
                (Watcher.TxHash (Watcher.Result res))
                (wrap_u64 (Watcher.Amount (Watcher.Result res)))
                (Watcher.To (Watcher.Result res))
                (wrap_u64 (Watcher.N (Watcher.Result res)))
                (Watcher.gpubkey watcher)) as Hsame.
  destruct (Watcher.burnToParams watcher round cache _ _ _ _ _) as [cache1 r1].
  destruct (Watcher.burnToParams watcher round' cache' _ _ _ _ _) as [cache2 r2].
  cbn [snd] in Hsame. subst r2.
  specialize (IH cache1 cache2). destruct r1 as [params|e]; [|exact IH].
  destruct (Watcher.range_logs watcher round cache1 rest) as [[cacheA subsA] errA].
  destruct (Watcher.range_logs watcher round' cache2 rest) as [[cacheB subsB] errB].
  cbn [fst snd] in *. destruct IH as [-> ->]. now split.
Qed.

Lemma range_logs_cut
  (watcher : Watcher.Watcher) (round : Watcher.Round)
  (before after : list Watcher.BurnLogResult) (res : Watcher.BurnLogResult) (e : error) :
  Forall (fun r => Watcher.no_error r = true) before ->
  Watcher.Error res = Some e ->
  forall cache,
    Watcher.range_logs watcher round cache (before ++ res :: after)
    = ((Watcher.range_logs watcher round cache before).1.1,
       (Watcher.range_logs watcher round cache before).1.2,
       Some e).
Proof.
  intros Hbefore Hres.
  induction Hbefore as [|r rest Hr _ IH]; intros cache.
  - cbn. now rewrite Hres.
  - cbn [app Watcher.range_logs]. unfold Watcher.no_error in Hr.
    destruct (Watcher.Error r); [discriminate|].
    destruct (Watcher.burnToParams watcher round cache _ _ _ _ _)
      as [cache1 [params|err]].
    + rewrite IH.
      destruct (Watcher.range_logs watcher round cache1 rest) as [[cacheA subs] errA].
      reflexivity.
    + apply IH.
Qed.

(** X14: an error result ends the batch where it stands: the results
    before it are processed as if the channel had ended there, and nothing
    after it is looked at. *)
Theorem error_result_cuts_the_batch
  (watcher : Watcher.Watcher) (round : Watcher.Round)
  (before after : list Watcher.BurnLogResult) (res : Watcher.BurnLogResult) (e : error) :
  Forall (fun r => Watcher.no_error r = true) before ->
  Watcher.Error res = Some e ->
  forall cache,
    Watcher.range_logs watcher round cache (before ++ res :: after)
    = ((Watcher.range_logs watcher round cache before).1.1,
       (Watcher.range_logs watcher round cache before).1.2,
       Some e).
Proof. apply range_logs_cut. Qed.

End WatcherBurns.

(** ** The watcher: how a round ends *)

Section WatcherExit.
Context `{Watcher.Libs}.

Lemma range_logs_without_error
      (watcher : Watcher.Watcher) (round : Watcher.Round)
      (c : list Watcher.BurnLogResult) :
  Forall (fun r => Watcher.no_error r = true) c ->
  forall cache, (Watcher.range_logs watcher round cache c).2 = None.
Proof.
  induction 1 as [|r rest Hr _ IH]; intros cache; [reflexivity|].
  cbn [Watcher.range_logs]. unfold Watcher.no_error in Hr.
  destruct (Watcher.Error r); [discriminate|].
  destruct (Watcher.burnToParams watcher round cache _ _ _ _ _)
    as [cache1 [params|err]]; [|apply IH].
  specialize (IH cache1).
  destruct (Watcher.range_logs watcher round cache1 rest) as [[cacheA subs] errA].
  exact IH.
Qed.

Lemma send_events_no_error (events : list Watcher.LogBurn) :
  Forall (fun r => Watcher.no_error r = true) (Watcher.send_events events).
Proof. destruct events; repeat constructor. Qed.

(** X15: how a round that reaches the fetch ends.  An error of the log
    filter, or of the iterator when [FetchBurnLogs] returns, is a fetch
    error; otherwise an iterator error after the loop, or else an error of
    [iter.Close()], fails the round on the channel, even though the burn
    delivered before it has been submitted; otherwise the round completes
    unless the final write of the cursor fails. *)
Theorem round_exit_after_fetch
  (watcher : Watcher.Watcher) (round : Watcher.Round)
  (cache cache' : gmap string string) (head last : Z) :
  Watcher.currentBlockNumber round = Ok head ->
  Watcher.lastCheckedBlockNumber watcher round cache head = (cache', Ok last) ->
  last < head ->
  Watcher.exit (Watcher.watchLogShiftOuts watcher round cache)
  = match Watcher.FilterLogBurn round last (Watcher.target watcher head last) with
    | Err e => Watcher.FetchError e
    | Ok iter =>
        match Watcher.errorAtReturn iter, Watcher.errorAfterLoop iter,
              Watcher.closeError iter with
        | Some e, _, _ => Watcher.FetchError e
        | None, Some e, _ => Watcher.ChannelError e
        | None, None, Some e => Watcher.ChannelError e
        | None, None, None =>
            match Watcher.redisFault round Watcher.SetCursor with
            | Some msg => Watcher.SetError (ErrOther msg)
            | None => Watcher.Completed
            end
        end
    end.
Proof.
  intros Hcur Hlast Hlt. unfold Watcher.watchLogShiftOuts.
  rewrite Hcur, Hlast, (proj2 (Z.leb_gt head last) Hlt).
  unfold Watcher.FetchBurnLogs.
  destruct (Watcher.FilterLogBurn round last _) as [iter|e]; [|reflexivity].
  destruct (Watcher.errorAtReturn iter); [reflexivity|].
  unfold Watcher.fetch_goroutine.
  pose proof (send_events_no_error (Watcher.events iter)) as Hevents.
  destruct (Watcher.errorAfterLoop iter) as [e|]; cbn [Watcher.send_error app].
  - rewrite (range_logs_cut watcher round _ _
               {| Watcher.Result := Watcher.zeroLogBurn; Watcher.Error := Some e |}
               e Hevents eq_refl).
    reflexivity.
  - destruct (Watcher.closeError iter) as [e|]; cbn [Watcher.send_error].
    + rewrite (range_logs_cut watcher round _ _
               {| Watcher.Result := Watcher.zeroLogBurn; Watcher.Error := Some e |}
               e Hevents eq_refl).
      reflexivity.
    + rewrite app_nil_r.
      pose proof (range_logs_without_error watcher round _ Hevents cache') as Hnone.
      destruct (Watcher.range_logs watcher round cache' _) as [[cache2 subs] err].
      cbn [snd] in Hnone. subst err.
      unfold Watcher.redis_Set.
      destruct (Watcher.redisFault round Watcher.SetCursor); reflexivity.
Qed.

End WatcherExit.

(** ** The watcher: cache keys *)

Lemma list_ascii_of_string_app (s t : string) :
  list_ascii_of_string (s ++ t)
  = (list_ascii_of_string s ++ list_ascii_of_string t)%list.
Proof. induction s as [|a s IH]; simpl; [reflexivity | now f_equal]. Qed.

Lemma list_ascii_of_string_inj (s t : string) :
  list_ascii_of_string s = list_ascii_of_string t -> s = t.
Proof.
  intros Heq.
  rewrite <- (string_of_list_ascii_of_string s), <- (string_of_list_ascii_of_string t).
  now rewrite Heq.
Qed.

Lemma digits_have_no_k (s : string) (d : Decimal.uint) :
  NilEmpty.uint_of_string s = Some d ->
  Forall (fun a => a <> "k"%char) (list_ascii_of_string s).
Proof.
  revert d. induction s as [|a s IH]; intros d Hparse; cbn; [constructor|].
  cbn in Hparse.
  destruct (NilEmpty.uint_of_string s) as [d'|] eqn:Hs.
  - constructor; [|now apply (IH d')].
    intros ->. cbn in Hparse. discriminate.
  - discriminate.
Qed.

Lemma formatUint_last (n : Z) :
  last (list_ascii_of_string (Watcher.formatUint n)) <> Some "k"%char
  /\ Watcher.formatUint n <> EmptyString.
Proof.
  unfold Watcher.formatUint.
  set (d := N.to_uint (Z.to_N n)).
  assert (Hparse : exists d', NilEmpty.uint_of_string (NilZero.string_of_uint d) = Some d').
  { destruct d; cbn; try (rewrite NilEmpty.usu); eauto. }
  destruct Hparse as [d' Hparse]. split.
  - intros Hlast. apply digits_have_no_k in Hparse.
    apply last_Some_elem_of in Hlast.
    rewrite Forall_forall in Hparse. now apply (Hparse _ Hlast).
  - destruct d; discriminate.
Qed.

(** X16: watchers share one Redis, and their keys never clash: watchers
    with different selectors have different cursor keys, and the
    selector-and-nonce key written for a burn is never the cursor key of any
    watcher. *)
Theorem cursor_keys_do_not_clash (watcher watcher' : Watcher.Watcher) (nonce : Z) :
  (Watcher.key watcher = Watcher.key watcher' ->
   Watcher.selector watcher = Watcher.selector watcher')
  /\ Watcher.selector watcher ++ "_" ++ Watcher.formatUint nonce
     <> Watcher.key watcher'.
Proof.
  unfold Watcher.key. split.
  - intros Heq. apply (f_equal list_ascii_of_string) in Heq.
    rewrite !list_ascii_of_string_app in Heq.
    apply app_inv_tail in Heq. now apply list_ascii_of_string_inj.
  - intros Heq. apply (f_equal list_ascii_of_string) in Heq.
    apply (f_equal last) in Heq.
    rewrite !list_ascii_of_string_app in Heq.
    destruct (formatUint_last nonce) as [Hlast Hnonempty].
    rewrite (last_app _ (list_ascii_of_string "_lastCheckedBlock")) in Heq.
    cbn [list_ascii_of_string last] in Heq.
    rewrite app_assoc, last_app in Heq.
    destruct (last (list_ascii_of_string (Watcher.formatUint nonce))) as [a|] eqn:Ha.
    + apply Hlast. now rewrite Heq.
    + apply last_None in Ha.
      apply Hnonempty, list_ascii_of_string_inj. now rewrite Ha.
Qed.

(** ** The tx checker: replies and failures *)

Section CheckerReplies.
Context `{Resolver.Transform}.

Lemma serve_answers
      (db db' : Resolver.DB) (round : Resolver.DBRound)
      (req : Resolver.RequestWithResponder) (reply : Resolver.Reply) :
  Resolver.serve db round req = Returns (db', reply) ->
  Resolver.answers req reply
  /\ exists more, db' = (db ++ more)%list /\ (length more <= 1)%nat.
Proof.
  intros Hserve. split.
  - revert Hserve. unfold Resolver.serve.
    destruct (Resolver.ReqParams req) as [params|]; [|discriminate].
    destruct (Resolver.verify params) as [tx|e]; [|intros [= _ <-]; now left].
    destruct (Resolver.checkDuplicate db round tx (Resolver.Query_gaas req))
      as [db1 [tx1 [e|]]]; intros [= _ <-]; [now right | reflexivity].
  - apply serve_table in Hserve as [-> | (tx & _ & ->)].
    + exists []. split; [now rewrite app_nil_r | cbn; lia].
    + eexists. split; [reflexivity | cbn; lia].
Qed.

(** X17: when [Run] returns, every request has got exactly one reply, in
    order: a response carrying the request's own id, or an invalid-params or
    internal error; and the table has only grown, by at most one row per
    request, with the rows it had left in place. *)
Theorem Run_answers_every_request
  (requests : list (Resolver.RequestWithResponder * Resolver.DBRound))
  (db db' : Resolver.DB) (replies : list Resolver.Reply) :
  Resolver.Run db requests = Returns (db', replies) ->
  Forall2 (fun request reply => Resolver.answers request.1 reply) requests replies
  /\ exists more,
      db' = (db ++ more)%list /\ (length more <= length requests)%nat.
Proof.
  revert db db' replies.
  induction requests as [|[req round] rest IH]; intros db db' replies; cbn.
  - intros [= <- <-]. split; [constructor|].
    exists []. split; [now rewrite app_nil_r | cbn; lia].
  - destruct (Resolver.serve db round req) as [[db1 reply]|msg] eqn:Hserve;
      [|discriminate].
    destruct (Resolver.Run db1 rest) as [[db2 replies']|msg] eqn:Hrun; [|discriminate].
    intros [= <- <-].
    apply serve_answers in Hserve as (Hreply & more1 & -> & Hlen1).
    apply IH in Hrun as (Hreplies & more2 & -> & Hlen2).
    split; [now constructor|].
    exists (more1 ++ more2)%list. split; [now rewrite app_assoc|].
    rewrite length_app. lia.
Qed.

(** X18: [Run] panics exactly when some request carries params that are
    not [ParamsSubmitTx]: the type assertion on [req.Params] is unchecked. *)
Theorem Run_panics_on_foreign_params
  (requests : list (Resolver.RequestWithResponder * Resolver.DBRound))
  (db : Resolver.DB) :
  (exists msg, Resolver.Run db requests = Panics msg)
  <-> Exists (fun request => Resolver.ReqParams request.1 = Resolver.OtherParams)
             requests.
Proof.
  revert db. induction requests as [|[req round] rest IH]; intros db; cbn.
  - split; [intros [msg Hmsg]; discriminate | intros Hex; inversion Hex].
  - rewrite Exists_cons. cbn [fst].
    unfold Resolver.serve at 1.
    destruct (Resolver.ReqParams req) as [params|] eqn:Hparams.
    + assert (Hserved : exists db1 reply,
                 match Resolver.verify params with
                 | Ok tx =>
                     match Resolver.checkDuplicate db round tx (Resolver.Query_gaas req) with
                     | (db', (_, Some err)) =>
                         Returns (db', Resolver.RespondWithErr Resolver.ErrorCodeInternal err)
                     | (db', (tx0, None)) =>
                         Returns (db', Resolver.NewResponse (Resolver.ID req)
                                         {| Resolver.ResponseTx := tx0 |})
                     end
                 | Err err =>
                     Returns (db, Resolver.RespondWithErr Resolver.ErrorCodeInvalidParams err)
                 end = Returns (db1, reply)).
      { destruct (Resolver.verify params); [|eauto].
        destruct (Resolver.checkDuplicate _ _ _ _) as [db1 [tx1 [e|]]]; eauto. }
      destruct Hserved as (db1 & reply & ->).
      specialize (IH db1).
      destruct (Resolver.Run db1 rest) as [[db2 replies]|msg].
      * split; [intros [m Hm]; discriminate|].
        intros [Hbad | Hrest]; [discriminate|].
        apply IH in Hrest as [m Hm]. discriminate.
      * split; [intros _; right; apply IH; eauto | eauto].
    + split; [now left | eauto].
Qed.

(** X19: when the store fails, the request is answered with the internal
    error carrying the store's error and no row is written: a failing
    lookup (any error but no-rows) skips the insert, and a failing insert
    leaves the table as it was. *)
Theorem store_failure_is_internal_error
  (db : Resolver.DB) (round : Resolver.DBRound)
  (req : Resolver.RequestWithResponder) (params : Resolver.ParamsSubmitTx)
  (tx : Resolver.Tx) (msg : string) :
  Resolver.ReqParams req = Resolver.SubmitTxParams params ->
  Resolver.verify params = Ok tx ->
  Resolver.txFault round = Some msg
  \/ (Resolver.txFault round = None
      /\ Resolver.find_row db (Resolver.Hash tx) = None
      /\ Resolver.insertFault round = Some msg) ->
  Resolver.serve db round req
  = Returns (db, Resolver.RespondWithErr Resolver.ErrorCodeInternal (ErrOther msg))
  /\ Resolver.ErrorCodeInternal = -32603.
Proof.
  intros Hreq Hverify Hfail. split; [|reflexivity].
  unfold Resolver.serve. rewrite Hreq, Hverify.
  unfold Resolver.checkDuplicate, Resolver.db_Tx, Resolver.db_InsertTx.
  destruct Hfail as [-> | (-> & -> & ->)]; reflexivity.
Qed.

End CheckerReplies.

(** ** The watcher: a burn that cannot be turned into params *)

Section WatcherSkips.
Context `{Watcher.Libs}.

(** X20: a delivered burn whose params cannot be built (an undecodable
    recipient, a failing encoder) is skipped without an error: the round
    submits nothing, still completes, and stores its target with the cache
    otherwise as reading the cursor left it. *)
Theorem unbuildable_burn_is_dropped
  (watcher : Watcher.Watcher) (round : Watcher.Round)
  (cache cache' : gmap string string) (head last : Z)
  (iter : Watcher.LogBurnIterator) (event : Watcher.LogBurn)
  (rest : list Watcher.LogBurn) (e : error) :
  Watcher.currentBlockNumber round = Ok head ->
  Watcher.lastCheckedBlockNumber watcher round cache head = (cache', Ok last) ->
  last < head ->
  let T := Watcher.target watcher head last in
  Watcher.FilterLogBurn round last T = Ok iter ->
  Watcher.events iter = event :: rest ->
  (Watcher.errorAtReturn iter, Watcher.errorAfterLoop iter, Watcher.closeError iter)
  = (None, None, None) ->
  (Watcher.burnToParams watcher round cache' (Watcher.TxHash event)
     (wrap_u64 (Watcher.Amount event)) (Watcher.To event) (wrap_u64 (Watcher.N event))
     (Watcher.gpubkey watcher)).2 = Err e ->
  Watcher.redisFault round Watcher.SetCursor = None ->
  Watcher.watchLogShiftOuts watcher round cache
  = Watcher.mkOutcome (<[Watcher.key watcher := Watcher.formatUint T]> cache')
                      (Some (last, T)) [] Watcher.Completed.
Proof.
  intros Hcur Hlast Hlt T Hfilter Hevents Herrors Hbuild Hset.
  injection Herrors as Hreturn Hloop Hclose.
  pose proof (burnToParams_cache watcher round cache'
                (Watcher.TxHash event) (wrap_u64 (Watcher.Amount event))
                (Watcher.To event) (wrap_u64 (Watcher.N event))
                (Watcher.gpubkey watcher)) as Hcache.
  cbv zeta in Hcache. rewrite Hbuild in Hcache.
  unfold Watcher.watchLogShiftOuts.
  rewrite Hcur, Hlast, (proj2 (Z.leb_gt head last) Hlt).
  unfold Watcher.FetchBurnLogs. fold T. rewrite Hfilter, Hreturn.
  unfold Watcher.fetch_goroutine. rewrite Hevents, Hloop, Hclose.
  cbn [Watcher.send_events Watcher.send_error app Watcher.range_logs
       Watcher.Error Watcher.Result].
  destruct (Watcher.burnToParams watcher round cache' _ _ _ _ _) as [cache1 r].
  cbn [fst snd] in Hbuild, Hcache. subst r cache1.
  unfold Watcher.redis_Set. now rewrite Hset.
Qed.

End WatcherSkips.

(** ** The further properties on concrete inputs *)

Lemma Write_then_Read_witness :
  Store.Read
    (Store.apply_updates (Store.Write (Store.NewCache 10) 0 "block" [Byte.x31]).1
       [Store.DoWrite 5 "peers" [Byte.x32]])
    10 "block"
  = Ok [Byte.x31].
Proof.
  apply (Write_then_Read (Store.NewCache 10) 0 "block" [Byte.x31] [Byte.x31]
           [Store.DoWrite 5 "peers" [Byte.x32]] 10).
  - reflexivity.
  - reflexivity.
  - repeat constructor; discriminate.
  - right. vm_compute. discriminate.
Defined.

Lemma Delete_then_Read_witness :
  Store.Read (V := bytes) (Store.Delete Scenario.one_entry "peers").1 5 "block"
  = Store.Read (V := bytes) Scenario.one_entry 5 "block".
Proof.
  apply (Delete_then_Read (V := bytes) Scenario.one_entry "peers" 5).
  discriminate.
Defined.

Lemma Entries_after_Write_and_Delete_witness :
  Store.Entries (Store.Write Scenario.one_entry 3 "peers" [Byte.x32]).1
  = Store.Entries Scenario.one_entry
    + (if Store.data Scenario.one_entry !! "peers" is Some _ then 0 else 1)
  /\ Store.Entries (Store.Delete Scenario.one_entry "peers").1
     = Store.Entries Scenario.one_entry
       - (if Store.data Scenario.one_entry !! "peers" is Some _ then 1 else 0).
Proof.
  apply (Entries_after_Write_and_Delete Scenario.one_entry 3 "peers"
           [Byte.x32] [Byte.x32]).
  reflexivity.
Defined.

Lemma timestamps_follow_data_witness :
  Store.Read (V := bytes)
    (Store.apply_updates (Store.NewCache 10)
       [Store.DoWrite 0 "block" [Byte.x31]; Store.DoDelete "block"])
    100 "block"
  = Err ErrKeyNotFound.
Proof.
  apply (timestamps_follow_data (V := bytes) 10
           [Store.DoWrite 0 "block" [Byte.x31]; Store.DoDelete "block"]).
  reflexivity.
Defined.

Lemma Iterator_visits_every_entry_witness :
  let step := Store.Next (Store.Nexts 0 (Store.Iterator Scenario.one_entry)) in
  step.2 = true /\ Store.KV (V := bytes) step.1 = Returns (Ok ("block", [Byte.x31])).
Proof.
  refine (proj2 (proj2 (proj2
            (Iterator_visits_every_entry (V := bytes) Scenario.one_entry 0 _)))).
  reflexivity.
Defined.

Lemma AddressEncodeDecoder_witness :
  exists codec,
    Watcher.AddressEncodeDecoder Watcher.Zcash Watcher.NetworkLocalnet = Returns codec.
Proof.
  apply (AddressEncodeDecoder_supported_chains Watcher.Zcash Watcher.NetworkLocalnet).
  right. right. reflexivity.
Defined.

Lemma cursor_is_initialised_once_witness :
  let cache' : gmap string string := {[ Watcher.key Scenario.btc_watcher := "99" ]} in
  Watcher.lastCheckedBlockNumber Scenario.btc_watcher (Scenario.quiet_round 100) ∅ 100
  = (cache', Ok 99)
  /\ Watcher.lastCheckedBlockNumber Scenario.btc_watcher (Scenario.quiet_round 250)
       cache' 250
     = (cache', Ok 99).
Proof.
  refine (cursor_is_initialised_once Scenario.btc_watcher (Scenario.quiet_round 100)
            (Scenario.quiet_round 250) ∅ 100 250 _ _ _ _);
    reflexivity.
Defined.

Lemma completed_round_cursor_witness :
  exists last T,
    Watcher.fetched
      (Watcher.watchLogShiftOuts Scenario.btc_watcher (Scenario.busy_round 110)
         (Scenario.cursor_at Scenario.btc_watcher 100))
    = Some (last, T)
    /\ Watcher.lastCheckedBlockNumber Scenario.btc_watcher (Scenario.quiet_round 120)
         (Watcher.cache_after
            (Watcher.watchLogShiftOuts Scenario.btc_watcher (Scenario.busy_round 110)
               (Scenario.cursor_at Scenario.btc_watcher 100)))
         120
       = (Watcher.cache_after
            (Watcher.watchLogShiftOuts Scenario.btc_watcher (Scenario.busy_round 110)
               (Scenario.cursor_at Scenario.btc_watcher 100)),
          Ok T).
Proof.
  apply (completed_round_cursor_is_read_back Scenario.btc_watcher
           (Scenario.busy_round 110) (Scenario.quiet_round 120)
           (Scenario.cursor_at Scenario.btc_watcher 100) 120).
  - vm_compute. reflexivity.
  - reflexivity.
Defined.

Lemma old_head_round_witness :
  Watcher.watchLogShiftOuts Scenario.btc_watcher (Scenario.busy_round 90)
    (Scenario.cursor_at Scenario.btc_watcher 100)
  = Watcher.mkOutcome (Scenario.cursor_at Scenario.btc_watcher 100) None []
                      Watcher.OldBlocks.
Proof.
  apply (old_head_round_does_nothing Scenario.btc_watcher (Scenario.busy_round 90)
           (Scenario.cursor_at Scenario.btc_watcher 100) 90 100).
  - split; [lia | reflexivity].
  - reflexivity.
  - reflexivity.
  - vm_compute. reflexivity.
  - lia.
Defined.

Lemma caught_up_round_witness :
  let watcher := Watcher.NewWatcher "BTC/fromEthereum" "gpubkey" in
  let cache := Scenario.cursor_at watcher 104 in
  let out := Watcher.watchLogShiftOuts watcher (Scenario.quiet_round 110) cache in
  Watcher.fetched out = Some (110 - 6, 110 - 6)
  /\ Watcher.exit out <> Watcher.OldBlocks
  /\ (Watcher.exit out = Watcher.Completed ->
      Watcher.cache_after out !! Watcher.key watcher = cache !! Watcher.key watcher).
Proof.
  apply (caught_up_round_refetches_last_block "BTC/fromEthereum" "gpubkey"
           (Scenario.quiet_round 110)
           (Scenario.cursor_at (Watcher.NewWatcher "BTC/fromEthereum" "gpubkey") 104)
           110).
  - lia.
  - reflexivity.
  - reflexivity.
  - reflexivity.
  - vm_compute. reflexivity.
Defined.

Lemma burnToParams_stores_two_mappings_witness :
  let r := Watcher.burnToParams Scenario.btc_watcher (Scenario.quiet_round 110) ∅
             "0xaa" 50000 "1BoatSLRHtKNngkdXEeobR76b53LETtpyT" 1 "gpubkey" in
  r.1 !! "BTC/fromEthereum_1" = Some "#v1" /\ r.1 !! "#v1" = Some "#t0xaa".
Proof.
  pose proof (burnToParams_stores_two_mappings Scenario.btc_watcher
                (Scenario.quiet_round 110) ∅
                "0xaa" 50000 "1BoatSLRHtKNngkdXEeobR76b53LETtpyT" 1 "gpubkey") as W.
  destruct W as (_ & Href & Hv0). split.
  - apply Href. reflexivity.
  - apply Hv0; [reflexivity | discriminate].
Defined.

Lemma burnToParams_builds_transaction_witness :
  exists params,
    (Watcher.burnToParams Scenario.btc_watcher (Scenario.quiet_round 110) ∅
       "0xcc" 20000 "bad3" 3 "gpubkey").2 = Ok params
    /\ Watcher.TxVersion (Watcher.ParamsTx params) = Watcher.Version0
    /\ Watcher.InTo (Watcher.Input (Watcher.ParamsTx params)) = "bbad3".
Proof.
  destruct (Watcher.burnToParams Scenario.btc_watcher (Scenario.quiet_round 110) ∅
              "0xcc" 20000 "bad3" 3 "gpubkey") as [cache' [params|e]] eqn:Hbuild;
    [|vm_compute in Hbuild; discriminate].
  exists params. split; [reflexivity|].
  destruct (burnToParams_builds_transaction Scenario.btc_watcher
              (Scenario.quiet_round 110) ∅ cache' "0xcc" 20000 "bad3" 3 "gpubkey"
              params Hbuild) as (_ & _ & _ & Hversion & Hto).
  assert (Hv0 : Watcher.TxVersion (Watcher.ParamsTx params) = Watcher.Version0).
  { apply Hversion. split; [reflexivity | discriminate]. }
  split; [exact Hv0|]. rewrite Hto, Hv0. reflexivity.
Defined.

Lemma error_result_cuts_the_batch_witness :
  Watcher.range_logs Scenario.btc_watcher (Scenario.quiet_round 110) ∅
    ([ {| Watcher.Result := Scenario.burn1; Watcher.Error := None |} ]
       ++ {| Watcher.Result := Watcher.zeroLogBurn;
             Watcher.Error := Some (ErrOther "subscription closed") |}
       :: [ {| Watcher.Result := Scenario.burn2; Watcher.Error := None |} ])
  = ((Watcher.range_logs Scenario.btc_watcher (Scenario.quiet_round 110) ∅
        [ {| Watcher.Result := Scenario.burn1; Watcher.Error := None |} ]).1.1,
     (Watcher.range_logs Scenario.btc_watcher (Scenario.quiet_round 110) ∅
        [ {| Watcher.Result := Scenario.burn1; Watcher.Error := None |} ]).1.2,
     Some (ErrOther "subscription closed")).
Proof.
  apply (error_result_cuts_the_batch Scenario.btc_watcher (Scenario.quiet_round 110)).
  - repeat constructor.
  - reflexivity.
Defined.

Lemma round_exit_after_fetch_witness :
  Watcher.exit
    (Watcher.watchLogShiftOuts Scenario.btc_watcher (Scenario.busy_round 110)
       (Scenario.cursor_at Scenario.btc_watcher 100))
  = Watcher.Completed.
Proof.
  refine (round_exit_after_fetch Scenario.btc_watcher (Scenario.busy_round 110)
            (Scenario.cursor_at Scenario.btc_watcher 100)
            (Scenario.cursor_at Scenario.btc_watcher 100) 110 100 _ _ _).
  - reflexivity.
  - vm_compute. reflexivity.
  - lia.
Defined.

Lemma cursor_keys_do_not_clash_witness :
  Watcher.selector Scenario.btc_watcher
  = Watcher.selector (Watcher.NewWatcher "BTC/fromEthereum" "other key").
Proof.
  apply (cursor_keys_do_not_clash Scenario.btc_watcher
           (Watcher.NewWatcher "BTC/fromEthereum" "other key") 0).
  reflexivity.
Defined.

Lemma unbuildable_burn_witness :
  Watcher.watchLogShiftOuts (H := Scenario.strict_libs) Scenario.btc_watcher
    (Scenario.bad_round 110) (Scenario.cursor_at Scenario.btc_watcher 100)
  = Watcher.mkOutcome
      (<[Watcher.key Scenario.btc_watcher := "104"]>
         (Scenario.cursor_at Scenario.btc_watcher 100))
      (Some (100, 104)) [] Watcher.Completed.
Proof.
  refine (unbuildable_burn_is_dropped (H := Scenario.strict_libs)
            Scenario.btc_watcher (Scenario.bad_round 110)
            (Scenario.cursor_at Scenario.btc_watcher 100)
            (Scenario.cursor_at Scenario.btc_watcher 100) 110 100
            Scenario.bad_log Scenario.burn3 []
            (ErrOther "unknown address format") _ _ _ _ _ _ _ _).
  - reflexivity.
  - vm_compute. reflexivity.
  - lia.
  - reflexivity.
  - reflexivity.
  - reflexivity.
  - reflexivity.
  - reflexivity.
Defined.

Lemma Run_answers_every_request_witness :
  Forall2 (fun request reply => Resolver.answers request.1 reply)
    [ (Scenario.submit 1 Scenario.mint, Scenario.healthy 1000);
      (Scenario.submit 2 Scenario.malformed, Scenario.healthy 1001) ]
    [ Resolver.NewResponse 1 {| Resolver.ResponseTx := Scenario.mint_checked |};
      Resolver.RespondWithErr (-32602) (ErrOther "unknown contract address") ].
Proof.
  refine (proj1 (Run_answers_every_request
                   [ (Scenario.submit 1 Scenario.mint, Scenario.healthy 1000);
                     (Scenario.submit 2 Scenario.malformed, Scenario.healthy 1001) ]
                   [] [Resolver.new_row (Scenario.healthy 1000) Scenario.mint_checked false]
                   _ _)).
  vm_compute. reflexivity.
Defined.

Lemma Run_panics_on_foreign_params_witness :
  exists msg,
    Resolver.Run []
      [ (Scenario.submit 1 Scenario.mint, Scenario.healthy 1000);
        ({| Resolver.ID := 2; Resolver.ReqParams := Resolver.OtherParams;
            Resolver.Query_gaas := EmptyString |}, Scenario.healthy 1001) ]
    = Panics msg.
Proof.
  apply Run_panics_on_foreign_params.
  right. left. reflexivity.
Defined.

Lemma store_failure_witness :
  Resolver.serve [] (Scenario.disk_full 1000) (Scenario.submit 1 Scenario.mint)
  = Returns ([], Resolver.RespondWithErr Resolver.ErrorCodeInternal (ErrOther "disk full")).
Proof.
  refine (proj1 (store_failure_is_internal_error [] (Scenario.disk_full 1000)
                   (Scenario.submit 1 Scenario.mint)
                   {| Resolver.ParamsTx := Scenario.mint |} Scenario.mint_checked
                   "disk full" _ _ _)).
  - reflexivity.
  - vm_compute. reflexivity.
  - right. repeat split.
Defined.

(** ** The watcher: which way the cursor moves *)

Section WatcherDirection.
Context `{Watcher.Libs}.

(** X21: for a default watcher whose round read head [head] and cursor
    [last] with [last < head] (and no wrap-around: [6 <= head],
    [last + 1000 < 2^64]), the block [T] fetched up to and stored is at most
    [last + 994] and at most [head - 6]; it lies below the cursor exactly
    when the head is less than 6 blocks ahead, equals it exactly at 6, and
    is beyond it exactly when the head is more than 6 ahead. *)
Theorem cursor_direction
  (sel pk : string) (round : Watcher.Round) (cache cache' : gmap string string)
  (head last : Z) :
  let watcher := Watcher.NewWatcher sel pk in
  Watcher.currentBlockNumber round = Ok head ->
  Watcher.lastCheckedBlockNumber watcher round cache head = (cache', Ok last) ->
  last < head ->
  6 <= head ->
  last + 1000 < two64 ->
  exists T,
    Watcher.fetched (Watcher.watchLogShiftOuts watcher round cache) = Some (last, T)
    /\ T <= last + 994
    /\ T + 6 <= head
    /\ (T < last <-> head < last + 6)
    /\ (T = last <-> head = last + 6)
    /\ (last < T <-> last + 6 < head).
Proof.
  intros watcher Hcur Hlast Hlt Hlo Hhi.
  exists (Watcher.target watcher head last).
  destruct (round_fetches_target watcher round cache cache' head last Hcur Hlast Hlt)
    as [Hfetched _].
  split; [exact Hfetched|].
  pose proof (currentBlockNumber_range round head Hcur) as Hhead.
  pose proof (lastCheckedBlockNumber_range watcher round cache cache' head last Hlast)
    as Hrange.
  rewrite target_spec.
  cbn [Watcher.maxBlockAdvance Watcher.confidenceInterval watcher Watcher.NewWatcher].
  unfold add_u64, sub_u64.
  rewrite (wrap_u64_small (last + 1000)) by lia.
  rewrite wrap_u64_small by lia. lia.
Qed.

End WatcherDirection.

Lemma cursor_direction_witness :
  exists T,
    Watcher.fetched
      (Watcher.watchLogShiftOuts (Watcher.NewWatcher "BTC/fromEthereum" "gpubkey")
         (Scenario.quiet_round 103)
         (Scenario.cursor_at (Watcher.NewWatcher "BTC/fromEthereum" "gpubkey") 100))
    = Some (100, T)
    /\ T <= 100 + 994
    /\ T + 6 <= 103
    /\ (T < 100 <-> 103 < 100 + 6)
    /\ (T = 100 <-> 103 = 100 + 6)
    /\ (100 < T <-> 100 + 6 < 103).
Proof.
  apply (cursor_direction "BTC/fromEthereum" "gpubkey" (Scenario.quiet_round 103)
           (Scenario.cursor_at (Watcher.NewWatcher "BTC/fromEthereum" "gpubkey") 100)
           (Scenario.cursor_at (Watcher.NewWatcher "BTC/fromEthereum" "gpubkey") 100)
           103 100).
  - reflexivity.
  - vm_compute. reflexivity.
  - lia.
  - lia.
  - reflexivity.
Defined.
